(** * Free-tier quota guard ([jupyter/py_src/bq_guard.py])

    A shallow embedding of the BigQuery free-tier guard and the properties
    its specification states about it.

    Modelling conventions.
    - Python [int] is [Z] (unbounded).
    - Python [str] is [string].  Characters of code 128 and above stand for
      caseless, non-space characters; Unicode case mapping and Unicode
      white space beyond ASCII are outside the model.
    - A finite Python [float] is the exact rational that the double
      denotes, in [Q]; true division of integers rounds to the nearest
      double, ties to even, and raises [OverflowError] beyond the range of
      doubles; the rendering [:.Nf] rounds to N decimals, ties to even.
      The sign of a zero is not kept: the guard divides integers by
      1024**3 and 1024**4 only, and no quotient of these is a negative
      zero.
    - Exceptions are the instances of [Exception]; the system-exiting
      [BaseException]s ([KeyboardInterrupt], [SystemExit]) are outside the
      model.
    - The warehouse client and the clock are external: they are parameters
      of the model, with arbitrary behaviour over an abstract world.  The
      listing of the datasets is lazy, as in the client library: each
      further item is fetched when the loop asks for it and the fetch may
      fail; a listing is finite. *)

From Stdlib Require Import ZArith QArith Qminmax List String Ascii Bool Lia.
Import ListNotations.

Local Open Scope string_scope.
Local Open Scope Z_scope.

(** ** Python strings *)

Module PyStr.

(** [str.isspace] on the ASCII range: TAB, LF, VT, FF, CR, the four
    separators FS, GS, RS, US, and the space. *)
Definition is_space (c : ascii) : bool :=
  let n := nat_of_ascii c in
  (((9 <=? n) && (n <=? 13)) || ((28 <=? n) && (n <=? 32)))%nat.

Definition upper_char (c : ascii) : ascii :=
  let n := nat_of_ascii c in
  if ((97 <=? n) && (n <=? 122))%nat then ascii_of_nat (n - 32) else c.

(** [s.upper()] *)
Fixpoint upper (s : string) : string :=
  match s with
  | EmptyString => EmptyString
  | String c r => String (upper_char c) (upper r)
  end.

(** [s.lstrip()] *)
Fixpoint lstrip (s : string) : string :=
  match s with
  | EmptyString => EmptyString
  | String c r => if is_space c then lstrip r else s
  end.

(** [s.rstrip()] *)
Fixpoint rstrip (s : string) : string :=
  match s with
  | EmptyString => EmptyString
  | String c r =>
      match rstrip r with
      | EmptyString => if is_space c then EmptyString else String c EmptyString
      | r' => String c r'
      end
  end.

(** [s.strip()] *)
Definition strip (s : string) : string := rstrip (lstrip s).

(** [s.startswith(p)] *)
Fixpoint startswith (s p : string) : bool :=
  match p, s with
  | EmptyString, _ => true
  | String _ _, EmptyString => false
  | String a p', String b s' => Ascii.eqb a b && startswith s' p'
  end.

(** [s.split(sep, 1)] for a one-character separator: the list holds the
    whole string when the separator does not occur, and otherwise the text
    before its first occurrence and the text after it. *)
Fixpoint split1 (sep : ascii) (s : string) : list string :=
  match s with
  | EmptyString => [EmptyString]
  | String c r =>
      if Ascii.eqb c sep then [EmptyString; r]
      else match split1 sep r with
           | h :: t => String c h :: t
           | [] => [String c EmptyString]
           end
  end.

(** Membership in a tuple of strings, [s in (a, b, ...)]. *)
Definition str_in (s : string) (l : list string) : bool :=
  existsb (String.eqb s) l.

(** Every character is white space. *)
Fixpoint all_space (s : string) : bool :=
  match s with
  | EmptyString => true
  | String c r => is_space c && all_space r
  end.

End PyStr.

Import PyStr.

(** ** [_region_to_location] *)

(** [region.split("-", 1)[1]]; the index is in range whenever the string
    starts with "region-" (lemma [split1_region_prefix]), which is the only
    place the source evaluates it, so the default is never returned. *)
Definition split_second (region : string) : string :=
  nth 1 (split1 "-"%char region) EmptyString.

Definition _region_to_location (region : string) : string :=
  let region := strip region in
  if str_in (upper region) ["EU"; "US"] then upper region
  else if startswith region "region-" then upper (split_second region)
  else upper region.

(** ** Results and exceptions *)

(** The class of a raised exception, as far as the guard tells classes
    apart: [RuntimeError] itself, a subclass of it (caught by
    [except RuntimeError] as well), or any other subclass of [Exception]. *)
Inductive ExcClass : Type :=
| RuntimeError
| RuntimeErrorSubclass (name : string)
| OtherException (name : string).

(** A number as an f-string renders it with [:.Nf]: the text is an
    optional minus sign and [units] written with its last N digits after
    the point ([units] = 500 and N = 3 stand for "0.500"). *)
Record Numeral : Type := mkNumeral { negative : bool; units : Z }.

(** What an exception says.  The two quota messages keep the figures that
    the f-strings interpolate, in the order of the source and as they are
    rendered. *)
Inductive Message : Type :=
| MsgQueryQuota (used_tb planned_tb remain_tb : Numeral)
| MsgStorageQuota (used_gb limit_gb : Numeral)
| MsgText (text : string).

Record Exc : Type := mkExc { exc_class : ExcClass; exc_msg : Message }.

(** [isinstance(e, RuntimeError)] *)
Definition is_RuntimeError (e : Exc) : bool :=
  match exc_class e with
  | RuntimeError | RuntimeErrorSubclass _ => true
  | OtherException _ => false
  end.

Inductive Res (A : Type) : Type :=
| Ok (a : A)
| Raise (e : Exc).
Arguments Ok {A} a.
Arguments Raise {A} e.

Definition OverflowError (text : string) : Exc :=
  mkExc (OtherException "OverflowError") (MsgText text).
Definition ZeroDivisionError (text : string) : Exc :=
  mkExc (OtherException "ZeroDivisionError") (MsgText text).
Definition ValueError (text : string) : Exc :=
  mkExc (OtherException "ValueError") (MsgText text).
Definition IndexError (text : string) : Exc :=
  mkExc (OtherException "IndexError") (MsgText text).
Definition KeyError (key : string) : Exc :=
  mkExc (OtherException "KeyError") (MsgText key).
Definition TypeError (text : string) : Exc :=
  mkExc (OtherException "TypeError") (MsgText text).

(** ** [datetime] and [timedelta]

    The proleptic Gregorian calendar of Python's [datetime] module, with
    its range of years 1..9999 and its ordinal arithmetic.  The time zone
    is UTC throughout and is not a field. *)

Module PyDatetime.

Record datetime : Type := mkDatetime {
  year : Z; month : Z; day : Z;
  hour : Z; minute : Z; second : Z; microsecond : Z
}.

Record timedelta : Type := mkTimedelta {
  td_days : Z; td_seconds : Z; td_microseconds : Z
}.

Definition MINYEAR : Z := 1.
Definition MAXYEAR : Z := 9999.
Definition MAXORDINAL : Z := 3652059.

Definition is_leap (y : Z) : bool :=
  (y mod 4 =? 0) && (negb (y mod 100 =? 0) || (y mod 400 =? 0)).

Definition DAYS_IN_MONTH (m : Z) : Z :=
  match m with
  | 1 => 31 | 2 => 28 | 3 => 31 | 4 => 30 | 5 => 31 | 6 => 30
  | 7 => 31 | 8 => 31 | 9 => 30 | 10 => 31 | 11 => 30 | 12 => 31
  | _ => -1
  end.

Definition DAYS_BEFORE_MONTH (m : Z) : Z :=
  match m with
  | 1 => 0 | 2 => 31 | 3 => 59 | 4 => 90 | 5 => 120 | 6 => 151
  | 7 => 181 | 8 => 212 | 9 => 243 | 10 => 273 | 11 => 304 | 12 => 334
  | _ => -1
  end.

Definition days_before_year (y : Z) : Z :=
  let y := y - 1 in y * 365 + y / 4 - y / 100 + y / 400.

Definition days_in_month (y m : Z) : Z :=
  if (m =? 2) && is_leap y then 29 else DAYS_IN_MONTH m.

Definition days_before_month (y m : Z) : Z :=
  DAYS_BEFORE_MONTH m + (if (2 <? m) && is_leap y then 1 else 0).

Definition ymd2ord (y m d : Z) : Z :=
  days_before_year y + days_before_month y m + d.

Definition DI400Y : Z := 146097.
Definition DI100Y : Z := 36524.
Definition DI4Y : Z := 1461.

(** [_ord2ymd]: ordinal to (year, month, day), 01-Jan-0001 being day 1. *)
Definition ord2ymd (n : Z) : Z * Z * Z :=
  let n := n - 1 in
  let n400 := n / DI400Y in let n := n mod DI400Y in
  let y := n400 * 400 + 1 in
  let n100 := n / DI100Y in let n := n mod DI100Y in
  let n4 := n / DI4Y in let n := n mod DI4Y in
  let n1 := n / 365 in let n := n mod 365 in
  let y := y + n100 * 100 + n4 * 4 + n1 in
  if (n1 =? 4) || (n100 =? 4) then (y - 1, 12, 31)
  else
    let leapyear := (n1 =? 3) && (negb (n4 =? 24) || (n100 =? 3)) in
    let m := Z.shiftr (n + 50) 5 in
    let preceding :=
      DAYS_BEFORE_MONTH m + (if (2 <? m) && leapyear then 1 else 0) in
    let '(m, preceding) :=
      if n <? preceding then
        (m - 1,
         preceding
         - (DAYS_IN_MONTH (m - 1)
            + (if (m - 1 =? 2) && leapyear then 1 else 0)))
      else (m, preceding) in
    (y, m, n - preceding + 1).

(** [_check_date_fields] *)
Definition check_date_fields (y m d : Z) : Res unit :=
  if negb ((MINYEAR <=? y) && (y <=? MAXYEAR))
  then Raise (ValueError "year out of range")
  else if negb ((1 <=? m) && (m <=? 12))
  then Raise (ValueError "month must be in 1..12")
  else if negb ((1 <=? d) && (d <=? days_in_month y m))
  then Raise (ValueError "day is out of range for month")
  else Ok tt.

(** [_check_time_fields] *)
Definition check_time_fields (h mi s us : Z) : Res unit :=
  if negb ((0 <=? h) && (h <=? 23))
  then Raise (ValueError "hour must be in 0..23")
  else if negb ((0 <=? mi) && (mi <=? 59))
  then Raise (ValueError "minute must be in 0..59")
  else if negb ((0 <=? s) && (s <=? 59))
  then Raise (ValueError "second must be in 0..59")
  else if negb ((0 <=? us) && (us <=? 999999))
  then Raise (ValueError "microsecond must be in 0..999999")
  else Ok tt.

(** The constructor [datetime(y, m, d, h, mi, s, us)], which every
    [replace] goes through. *)
Definition make_datetime (y m d h mi s us : Z) : Res datetime :=
  match check_date_fields y m d with
  | Raise e => Raise e
  | Ok _ =>
      match check_time_fields h mi s us with
      | Raise e => Raise e
      | Ok _ => Ok (mkDatetime y m d h mi s us)
      end
  end.

(** A datetime that the constructor accepts. *)
Definition valid_datetime (d : datetime) : bool :=
  match make_datetime (year d) (month d) (day d)
                      (hour d) (minute d) (second d) (microsecond d) with
  | Ok _ => true
  | Raise _ => false
  end.

(** [d.replace(day=.., hour=.., minute=.., second=.., microsecond=..)] *)
Definition replace_day_time (d : datetime) (dd h mi s us : Z) : Res datetime :=
  make_datetime (year d) (month d) dd h mi s us.

(** [d.replace(day=..)] *)
Definition replace_day (d : datetime) (dd : Z) : Res datetime :=
  make_datetime (year d) (month d) dd
                (hour d) (minute d) (second d) (microsecond d).

(** [timedelta(days=.., seconds=.., microseconds=..)], normalised so that
    0 <= seconds < 86400 and 0 <= microseconds < 1000000. *)
Definition make_timedelta (days seconds microseconds : Z) : timedelta :=
  let seconds := seconds + microseconds / 1000000 in
  let microseconds := microseconds mod 1000000 in
  let days := days + seconds / 86400 in
  let seconds := seconds mod 86400 in
  mkTimedelta days seconds microseconds.

Definition timedelta_add (a b : timedelta) : timedelta :=
  make_timedelta (td_days a + td_days b) (td_seconds a + td_seconds b)
                 (td_microseconds a + td_microseconds b).

Definition toordinal (d : datetime) : Z := ymd2ord (year d) (month d) (day d).

(** [datetime.__add__]: through the ordinal; a result outside years
    1..9999 raises [OverflowError]. *)
Definition datetime_add (d : datetime) (other : timedelta) : Res datetime :=
  let delta :=
    timedelta_add
      (make_timedelta (toordinal d)
         (hour d * 3600 + minute d * 60 + second d) (microsecond d))
      other in
  let h := td_seconds delta / 3600 in
  let rem := td_seconds delta mod 3600 in
  let mi := rem / 60 in
  let s := rem mod 60 in
  if (0 <? td_days delta) && (td_days delta <=? MAXORDINAL) then
    let '(y, m, dd) := ord2ymd (td_days delta) in
    Ok (mkDatetime y m dd h mi s (td_microseconds delta))
  else Raise (OverflowError "date value out of range").

(** Comparison of two datetimes of the same time zone: lexicographic on
    the fields. *)
Definition to_fields (d : datetime) : list Z :=
  [year d; month d; day d; hour d; minute d; second d; microsecond d].

Fixpoint lex_ltb (a b : list Z) : bool :=
  match a, b with
  | x :: a', y :: b' => (x <? y) || ((x =? y) && lex_ltb a' b')
  | [], _ :: _ => true
  | _, [] => false
  end.

Definition datetime_ltb (a b : datetime) : bool :=
  lex_ltb (to_fields a) (to_fields b).

End PyDatetime.

Import PyDatetime.

(** ** [_month_bounds_utc], on the value read from the clock *)

Definition month_bounds_of (now : datetime) : Res (datetime * datetime) :=
  match replace_day_time now 1 0 0 0 0 with
  | Raise e => Raise e
  | Ok start =>
      match replace_day start 28 with
      | Raise e => Raise e
      | Ok d28 =>
          match datetime_add d28 (make_timedelta 4 0 0) with
          | Raise e => Raise e
          | Ok later =>
              match replace_day later 1 with
              | Raise e => Raise e
              | Ok end_ => Ok (start, end_)
              end
          end
      end
  end.

(** The first instant of the month after (y, m), as the specification
    words it; [month_bounds_of] is compared with it. *)
Definition first_of_next_month (y m : Z) : datetime :=
  if m =? 12 then mkDatetime (y + 1) 1 1 0 0 0 0
  else mkDatetime y (m + 1) 1 0 0 0 0.

(** ** The warehouse client *)

Inductive ParamValue : Type :=
| PTimestamp (d : datetime)
| PString (s : string).

(** [bigquery.ScalarQueryParameter(name, type_, value)] *)
Record ScalarQueryParameter : Type := mkParam {
  p_name : string; p_type : string; p_value : ParamValue
}.

(** [bigquery.QueryJobConfig(...)]; an option left out is [None]. *)
Record QueryJobConfig : Type := mkConfig {
  query_parameters : list ScalarQueryParameter;
  dry_run : option bool;
  use_query_cache : option bool
}.

(** One call [client.query(sql, job_config=.., location=..)]. *)
Record QueryCall : Type := mkCall {
  q_sql : string;
  q_job_config : option QueryJobConfig;
  q_location : option string
}.

(** A result row: column name to value, [None] for SQL NULL. *)
Definition Row : Type := list (string * option Z).

Record DatasetReference : Type := mkRef {
  ref_project : string; ref_dataset_id : string
}.

(** An item of [client.list_datasets(..)]. *)
Record DatasetListItem : Type := mkItem { reference : DatasetReference }.

(** The value of [client.get_dataset(..)]. *)
Record Dataset : Type := mkDataset {
  ds_location : option string; dataset_id : string
}.

(** What [safe_query] prints: the usage line and the skip warning, with the
    values their f-strings interpolate, as they are rendered. *)
Inductive Output : Type :=
| OutUsage (storage_used_gb storage_limit_gb query_used_tb query_limit_tb
            : Numeral)
| OutSkip (e : Exc).

Definition QUERY_LIMIT_BYTES : Z := 1 * 1024 ^ 4.
Definition STORAGE_LIMIT_BYTES : Z := 10 * 1024 ^ 3.
Definition DEFAULT_REGIONS : list string := ["region-eu"; "region-us"].

(** ** Floats *)

Module PyFloat.

(** The integer nearest to n / d, ties to the even one (0 <= n, 0 < d). *)
Definition round_half_even (n d : Z) : Z :=
  let q := n / d in
  let r := n mod d in
  if 2 * r <? d then q
  else if d <? 2 * r then q + 1
  else if Z.even q then q else q + 1.

(** The double nearest to a / b for 0 < a and 0 < b, as the pair (m, e)
    of a value m * 2**e: e is the exponent of the last of the 53 bits of
    the quotient, not below that of the subnormals, and m is the quotient
    rounded at that bit. *)
Definition nearest_double (a b : Z) : Z * Z :=
  let t := Z.log2 a - Z.log2 b in
  let e0 := if a * 2 ^ Z.max (- t) 0 <? b * 2 ^ Z.max t 0 then t - 1
            else t in
  let e := Z.max (e0 - 52) (-1074) in
  (round_half_even (a * 2 ^ Z.max (- e) 0) (b * 2 ^ Z.max e 0), e).

(** [a / b] on integers: the nearest double; [OverflowError] when that is
    not finite, that is when it reaches 2**1024. *)
Definition truediv (a b : Z) : Res Q :=
  if b =? 0 then Raise (ZeroDivisionError "division by zero")
  else if a =? 0 then Ok 0%Q
  else
    let '(m, e) := nearest_double (Z.abs a) (Z.abs b) in
    if 2 ^ 1024 <=? m * 2 ^ e then
      Raise (OverflowError "integer division result too large for a float")
    else
      Ok (Qmake (Z.sgn a * Z.sgn b * m * 2 ^ Z.max e 0)
                (Z.to_pos (2 ^ Z.max (- e) 0))).

(** [a / b] does not overflow. *)
Definition fits_float (a b : Z) : bool :=
  match truediv a b with
  | Ok _ => true
  | Raise _ => false
  end.

(** [max(x, 0)]: the first argument unless the second is greater. *)
Definition max_0 (x : Q) : Q := if Qle_bool 0 x then x else 0%Q.

(** [f"{x:.Nf}"] for N = [digits]. *)
Definition format_f (digits : Z) (x : Q) : Numeral :=
  mkNumeral (negb (Qle_bool 0 x))
            (round_half_even (Z.abs (Qnum x) * 10 ^ digits) (Zpos (Qden x))).

End PyFloat.

Import PyFloat.

(** [rows[0]] *)
Definition getitem_0 {A : Type} (l : list A) : Res A :=
  match l with
  | x :: _ => Ok x
  | [] => Raise (IndexError "list index out of range")
  end.

(** [d[key]] on a row or a dict *)
Fixpoint getitem {V : Type} (d : list (string * V)) (key : string) : Res V :=
  match d with
  | [] => Raise (KeyError key)
  | (k, v) :: rest => if String.eqb k key then Ok v else getitem rest key
  end.

(** [int(v)] on a value that is an integer or [None] *)
Definition int_of (v : option Z) : Res Z :=
  match v with
  | Some n => Ok n
  | None => Raise (TypeError "int() argument must be a number, not NoneType")
  end.

(** [not s] on an optional string: [None] and the empty string are falsy. *)
Definition falsy (s : option string) : bool :=
  match s with
  | None => true
  | Some s => String.eqb s EmptyString
  end.

(** [s or ""] *)
Definition or_empty (s : option string) : string :=
  match s with
  | Some s => s
  | None => EmptyString
  end.

Definition NL : string := String (ascii_of_nat 10) EmptyString.

Definition jobs_sql (region : string) : string :=
  NL ++ "        SELECT COALESCE(SUM(total_bytes_billed), 0) AS billed" ++
  NL ++ "        FROM `" ++ region
     ++ "`.INFORMATION_SCHEMA.JOBS_BY_PROJECT" ++
  NL ++ "        WHERE creation_time >= @start AND creation_time < @end" ++
  NL ++ "          AND job_type = 'QUERY' AND state = 'DONE'" ++
  NL ++ "        ".

Definition project_storage_sql (region : string) : string :=
  NL ++ "            SELECT COALESCE(SUM(active_logical_bytes"
     ++ " + long_term_logical_bytes), 0) AS logical_bytes" ++
  NL ++ "            FROM `" ++ region
     ++ "`.INFORMATION_SCHEMA.TABLE_STORAGE_BY_PROJECT" ++
  NL ++ "            WHERE project_id = @project" ++
  NL ++ "            ".

Definition dataset_storage_sql (project_id dataset_id : string) : string :=
  NL ++ "                SELECT COALESCE(SUM(active_logical_bytes"
     ++ " + long_term_logical_bytes), 0) AS logical_bytes" ++
  NL ++ "                FROM `" ++ project_id ++ "." ++ dataset_id
     ++ ".INFORMATION_SCHEMA.TABLE_STORAGE`" ++
  NL ++ "                ".

(** Lines 143-149, the statement under [if used_query + planned >
    query_limit_bytes]: it always ends in an exception, the
    [RuntimeError] that it builds or the [OverflowError] of one of the
    divisions that the message needs, taken in the order in which they are
    evaluated. *)
Definition query_quota_exception (used_query planned query_limit_bytes : Z)
  : Exc :=
  match truediv (query_limit_bytes - used_query) (1024 ^ 4) with
  | Raise e => e
  | Ok remain_tb =>
      match truediv used_query (1024 ^ 4) with
      | Raise e => e
      | Ok used_tb =>
          match truediv planned (1024 ^ 4) with
          | Raise e => e
          | Ok planned_tb =>
              mkExc RuntimeError
                (MsgQueryQuota (format_f 3 used_tb) (format_f 3 planned_tb)
                               (format_f 3 (max_0 remain_tb)))
          end
      end
  end.

(** Lines 152-155, the statement under [if used_storage >
    storage_limit_bytes], likewise. *)
Definition storage_quota_exception (used_storage storage_limit_bytes : Z)
  : Exc :=
  match truediv used_storage (1024 ^ 3) with
  | Raise e => e
  | Ok used_gb =>
      match truediv storage_limit_bytes (1024 ^ 3) with
      | Raise e => e
      | Ok limit_gb =>
          mkExc RuntimeError
            (MsgStorageQuota (format_f 2 used_gb) (format_f 0 limit_gb))
      end
  end.

(** Lines 199-204: the four figures of the usage line, each looked up and
    divided in turn, and the line that [print] is given. *)
Definition usage_line (stats : list (string * Z)) : Res Output :=
  match getitem stats "used_storage_bytes" with
  | Raise e => Raise e
  | Ok used_storage =>
  match truediv used_storage (1024 ^ 3) with
  | Raise e => Raise e
  | Ok storage_used_gb =>
  match getitem stats "storage_limit_bytes" with
  | Raise e => Raise e
  | Ok storage_limit =>
  match truediv storage_limit (1024 ^ 3) with
  | Raise e => Raise e
  | Ok storage_limit_gb =>
  match getitem stats "used_query_bytes" with
  | Raise e => Raise e
  | Ok used_query =>
  match truediv used_query (1024 ^ 4) with
  | Raise e => Raise e
  | Ok query_used_tb =>
  match getitem stats "query_limit_bytes" with
  | Raise e => Raise e
  | Ok query_limit =>
  match truediv query_limit (1024 ^ 4) with
  | Raise e => Raise e
  | Ok query_limit_tb =>
      Ok (OutUsage (format_f 2 storage_used_gb) (format_f 0 storage_limit_gb)
                   (format_f 3 query_used_tb) (format_f 0 query_limit_tb))
  end end end end end end end end.

Section Guard.

(** The world outside the program, the handles of submitted jobs and the
    tabular results are abstract. *)
Context {W Job DataFrame : Type}.

(** What [client.list_datasets(..)] gives to a [for] loop: the end, a
    failure of the fetch, or an item; asking for more after an item is
    another fetch, which changes the world ([after]) and gives the rest of
    the listing as the world then has it ([rest]). *)
Inductive Listing : Type :=
| LEnd
| LFail (e : Exc)
| LItem (d : DatasetListItem) (after : W -> W) (rest : W -> Listing).

(** [bigquery.Client]: every operation may change the world and may
    raise.  [list_datasets] goes as far as the first fetch. *)
Record Client : Type := mkClient {
  project : string;
  query : QueryCall -> W -> Res Job * W;
  rows_of : Job -> W -> Res (list Row) * W;
  total_bytes_processed : Job -> option Z;
  list_datasets : string -> W -> Listing * W;
  get_dataset : DatasetReference -> W -> Res Dataset * W;
  result_to_dataframe : Job -> option Q -> W -> Res DataFrame * W
}.

(** The calls made to the client, in order. *)
Inductive Event : Type :=
| EvQuery (c : QueryCall)
| EvRows (j : Job)
| EvListDatasets (project_id : string)
| EvGetDataset (r : DatasetReference)
| EvResult (j : Job) (timeout : option Q).

Record State : Type := mkState {
  world : W;
  calls : list Event;
  stdout : list Output
}.

(** Computations: state passing, with exceptions. *)
Definition M (A : Type) : Type := State -> Res A * State.

Definition ret {A : Type} (a : A) : M A := fun st => (Ok a, st).

Definition raise {A : Type} (e : Exc) : M A := fun st => (Raise e, st).

Definition bind {A B : Type} (m : M A) (k : A -> M B) : M B :=
  fun st =>
    match m st with
    | (Ok a, st') => k a st'
    | (Raise e, st') => (Raise e, st')
    end.

Definition lift {A : Type} (r : Res A) : M A := fun st => (r, st).

(** [try: m  except <catches> as e: handler e] *)
Definition try_except {A : Type} (m : M A) (catches : Exc -> bool)
           (handler : Exc -> M A) : M A :=
  fun st =>
    match m st with
    | (Ok a, st') => (Ok a, st')
    | (Raise e, st') => if catches e then handler e st' else (Raise e, st')
    end.

(** [except Exception] *)
Definition any_Exception (e : Exc) : bool := true.

(** [for x in l: total = body x total] *)
Fixpoint for_each {A : Type} (body : A -> Z -> M Z) (l : list A) (total : Z)
  : M Z :=
  match l with
  | [] => ret total
  | x :: rest => bind (body x total) (for_each body rest)
  end.

(** [for d in listing: total = body d total] *)
Fixpoint for_listing (body : DatasetListItem -> Z -> M Z) (l : Listing)
         (total : Z) : M Z :=
  match l with
  | LEnd => ret total
  | LFail e => raise e
  | LItem d after rest =>
      bind (body d total) (fun total' st =>
        for_listing body (rest (world st)) total'
          (mkState (after (world st)) (calls st) (stdout st)))
  end.

Definition print (o : Output) : M unit :=
  fun st => (Ok tt, mkState (world st) (calls st) (stdout st ++ [o])).

Variable clock : W -> datetime.
Variable client : Client.

(** The client's operations, with the call recorded. *)
Definition call {A : Type} (ev : Event) (op : W -> Res A * W) : M A :=
  fun st =>
    let (r, w) := op (world st) in
    (r, mkState w (calls st ++ [ev]) (stdout st)).

Definition client_query (c : QueryCall) : M Job :=
  call (EvQuery c) (query client c).

Definition list_job (j : Job) : M (list Row) :=
  call (EvRows j) (rows_of client j).

Definition client_list_datasets (project_id : string) : M Listing :=
  fun st =>
    let (l, w) := list_datasets client project_id (world st) in
    (Ok l, mkState w (calls st ++ [EvListDatasets project_id]) (stdout st)).

Definition client_get_dataset (r : DatasetReference) : M Dataset :=
  call (EvGetDataset r) (get_dataset client r).

Definition job_result_to_dataframe (j : Job) (timeout : option Q)
  : M DataFrame :=
  call (EvResult j timeout) (result_to_dataframe client j timeout).

(** [int(list(job)[0][column])] *)
Definition first_row_int (job : Job) (column : string) : M Z :=
  bind (list_job job) (fun rows =>
  bind (lift (getitem_0 rows)) (fun row =>
  bind (lift (getitem row column)) (fun v =>
  lift (int_of v)))).

Definition _month_bounds_utc : M (datetime * datetime) :=
  fun st => (month_bounds_of (clock (world st)), st).

Definition _sum_query_bytes_billed (regions : list string) : M Z :=
  bind _month_bounds_utc (fun '(start, end_) =>
  for_each
    (fun region total =>
       let location := _region_to_location region in
       bind (client_query
               (mkCall (jobs_sql region)
                  (Some (mkConfig
                           [mkParam "start" "TIMESTAMP" (PTimestamp start);
                            mkParam "end" "TIMESTAMP" (PTimestamp end_)]
                           None None))
                  (Some location))) (fun job =>
       bind (first_row_int job "billed") (fun billed =>
       ret (total + billed))))
    regions 0).

(** [if not project_id: project_id = client.project] *)
Definition resolve_project (project_id : option string) : string :=
  if falsy project_id then project client else or_empty project_id.

(** The body of the [try] of [_sum_storage_bytes]: the project-wide
    query of one region; its value is what is added to the total. *)
Definition storage_fast_path (project_id region location : string) : M Z :=
  bind (client_query
          (mkCall (project_storage_sql region)
             (Some (mkConfig
                      [mkParam "project" "STRING" (PString project_id)]
                      None None))
             (Some location))) (fun job =>
  first_row_int job "logical_bytes").

(** The body of the loop over the datasets. *)
Definition storage_dataset (project_id location : string)
           (ds : DatasetListItem) (total : Z) : M Z :=
  try_except
    (bind (client_get_dataset (reference ds)) (fun ds_ref =>
     if negb (String.eqb (upper (or_empty (ds_location ds_ref))) location)
     then ret total
     else
       bind (client_query
               (mkCall (dataset_storage_sql project_id (dataset_id ds_ref))
                  None (ds_location ds_ref))) (fun job =>
       bind (first_row_int job "logical_bytes") (fun n =>
       ret (total + n)))))
    any_Exception
    (fun _ => ret total).

(** The fallback of one region: the loop over [client.list_datasets]. *)
Definition storage_fallback (project_id location : string) (total : Z)
  : M Z :=
  bind (client_list_datasets project_id) (fun datasets =>
  for_listing (storage_dataset project_id location) datasets total).

(** The body of the loop over the regions. *)
Definition storage_region (project_id : string) (region : string)
           (total : Z) : M Z :=
  let location := _region_to_location region in
  fun st =>
    match storage_fast_path project_id region location st with
    | (Ok n, st') => (Ok (total + n), st')
    | (Raise _, st') => storage_fallback project_id location total st'
    end.

Definition _sum_storage_bytes (regions : list string)
           (project_id : option string) : M Z :=
  let project_id := resolve_project project_id in
  for_each (storage_region project_id) regions 0.

Definition estimate_query_bytes (sql : string) (location : option string)
  : M Z :=
  bind (client_query
          (mkCall sql (Some (mkConfig [] (Some true) (Some false)))
             location)) (fun job =>
  lift (int_of (total_bytes_processed client job))).

(** [planned = 0], then [if planned_query_sql: planned =
    estimate_query_bytes(...)]: the value of [planned] at the
    comparisons. *)
Definition planned_query_bytes (planned_query_sql : option string)
           (planned_query_location : option string) : M Z :=
  if falsy planned_query_sql then ret 0
  else estimate_query_bytes (or_empty planned_query_sql)
                            planned_query_location.

Definition check_free_tier_allowance
           (project_id : option string)
           (regions : list string)
           (planned_query_sql : option string)
           (planned_query_location : option string)
           (query_limit_bytes storage_limit_bytes : Z)
  : M (list (string * Z)) :=
  let project_id := resolve_project project_id in
  bind (_sum_query_bytes_billed regions) (fun used_query =>
  bind (_sum_storage_bytes regions (Some project_id)) (fun used_storage =>
  bind (planned_query_bytes planned_query_sql planned_query_location)
       (fun planned =>
  if used_query + planned >? query_limit_bytes then
    raise (query_quota_exception used_query planned query_limit_bytes)
  else if used_storage >? storage_limit_bytes then
    raise (storage_quota_exception used_storage storage_limit_bytes)
  else
    ret [("used_query_bytes", used_query);
         ("planned_query_bytes", planned);
         ("query_limit_bytes", query_limit_bytes);
         ("used_storage_bytes", used_storage);
         ("storage_limit_bytes", storage_limit_bytes)]))).

(** What [safe_query] returns. *)
Inductive QueryResult : Type :=
| RDataFrame (df : DataFrame)
| RJob (job : Job)
| RNone.

(** The [try] statement of [safe_query]: [Some r] when the statement
    returns [r] from the function, [None] when control goes on to the
    code after it. *)
Definition safe_query_check
           (sql : string) (location : option string)
           (regions : list string) (project_id : option string)
           (query_limit_bytes storage_limit_bytes : Z) (fail_soft : bool)
  : M (option QueryResult) :=
  try_except
    (bind (check_free_tier_allowance project_id regions (Some sql) location
             query_limit_bytes storage_limit_bytes) (fun stats =>
     bind (lift (usage_line stats)) (fun line =>
     bind (print line) (fun _ => ret None))))
    is_RuntimeError
    (fun e =>
       if fail_soft then bind (print (OutSkip e)) (fun _ => ret (Some RNone))
       else raise e).

Definition safe_query
           (sql : string) (location : option string)
           (regions : list string) (project_id : option string)
           (query_limit_bytes storage_limit_bytes : Z)
           (to_dataframe : bool) (job_config : option QueryJobConfig)
           (timeout : option Q) (fail_soft : bool)
  : M QueryResult :=
  bind (safe_query_check sql location regions project_id
          query_limit_bytes storage_limit_bytes fail_soft) (fun returned =>
  match returned with
  | Some r => ret r
  | None =>
      bind (client_query (mkCall sql job_config location)) (fun job =>
      if to_dataframe then
        bind (job_result_to_dataframe job timeout) (fun df =>
        ret (RDataFrame df))
      else ret (RJob job))
  end).

End Guard.

Arguments Client : clear implicits.
Arguments State : clear implicits.
Arguments Event : clear implicits.
Arguments Listing : clear implicits.

(** ** A scripted client

    A client whose answers are read off a fixed description of the
    warehouse; the concrete instances below are run by the examples. *)

Module Scripted.

Record Warehouse : Type := mkWarehouse {
  wh_now : datetime;
  (** bytes billed this month, the answer of every region *)
  wh_billed : Z;
  (** the answer of the project-wide storage query; [None]: it fails *)
  wh_project_storage : option Z;
  (** the datasets: id, location, and the answer of the per-dataset
      storage query ([None]: it fails) *)
  wh_datasets : list (string * option string * option Z);
  (** the dry-run estimate *)
  wh_estimate : Z
}.

Record SJob : Type := mkSJob {
  sj_rows : Res (list Row);
  sj_processed : option Z
}.

Definition Forbidden : Exc :=
  mkExc (OtherException "Forbidden") (MsgText "403 Access Denied").
Definition NotFound : Exc :=
  mkExc (OtherException "NotFound") (MsgText "404 Not found").

Definition project_name : string := "demo".

Definition has_param (name : string) (cfg : QueryJobConfig) : bool :=
  existsb (fun p => String.eqb (p_name p) name) (query_parameters cfg).

Definition find_dataset (wh : Warehouse) (sql : string)
  : option (string * option string * option Z) :=
  find (fun d =>
          String.eqb (dataset_storage_sql project_name (fst (fst d))) sql)
       (wh_datasets wh).

Definition s_query (c : QueryCall) (wh : Warehouse) : Res SJob * Warehouse :=
  match q_job_config c with
  | Some cfg =>
      match dry_run cfg with
      | Some true => (Ok (mkSJob (Ok []) (Some (wh_estimate wh))), wh)
      | _ =>
          if has_param "start" cfg then
            (Ok (mkSJob (Ok [[("billed", Some (wh_billed wh))]]) None), wh)
          else if has_param "project" cfg then
            match wh_project_storage wh with
            | Some n =>
                (Ok (mkSJob (Ok [[("logical_bytes", Some n)]]) None), wh)
            | None => (Raise Forbidden, wh)
            end
          else (Ok (mkSJob (Ok [[("n", Some 1)]]) None), wh)
      end
  | None =>
      match find_dataset wh (q_sql c) with
      | Some (_, _, Some n) =>
          (Ok (mkSJob (Ok [[("logical_bytes", Some n)]]) None), wh)
      | Some (_, _, None) => (Raise Forbidden, wh)
      | None => (Ok (mkSJob (Ok [[("n", Some 1)]]) None), wh)
      end
  end.

Definition s_get_dataset (r : DatasetReference) (wh : Warehouse)
  : Res Dataset * Warehouse :=
  match find (fun d => String.eqb (fst (fst d)) (ref_dataset_id r))
             (wh_datasets wh) with
  | Some (id, loc, _) => (Ok (mkDataset loc id), wh)
  | None => (Raise NotFound, wh)
  end.

(** The listing that yields the items of a list and ends. *)
Fixpoint listing_of (l : list DatasetListItem) : Listing Warehouse :=
  match l with
  | [] => LEnd
  | d :: rest => LItem d (fun wh => wh) (fun _ => listing_of rest)
  end.

Definition client : Client Warehouse SJob (list Row) :=
  mkClient
    project_name
    s_query
    (fun j wh => (sj_rows j, wh))
    sj_processed
    (fun p wh =>
       (listing_of
          (map (fun d => mkItem (mkRef p (fst (fst d)))) (wh_datasets wh)),
        wh))
    s_get_dataset
    (fun j _ wh => (sj_rows j, wh)).

Definition clock (wh : Warehouse) : datetime := wh_now wh.

Definition initial (wh : Warehouse) : State Warehouse SJob :=
  mkState wh [] [].

(** The state that a computation leaves. *)
Definition after {A : Type}
           (m : State Warehouse SJob -> Res A * State Warehouse SJob)
           (st : State Warehouse SJob) : State Warehouse SJob :=
  snd (m st).

Definition GiB : Z := 1024 ^ 3.

Definition noon : datetime := mkDatetime 2024 2 17 12 0 0 0.

(** 5 GiB stored, nothing billed, a small pending query. *)
Definition quiet : Warehouse :=
  mkWarehouse noon 0 (Some (5 * GiB)) [] 1000.



(** The project-wide storage view is not available; three datasets, one
    in the other location, one whose storage query fails. *)
Definition no_project_view : Warehouse :=
  mkWarehouse noon 0 None
    [("sales", Some "EU", Some 100);
     ("logs", Some "US", Some 1000);
     ("staging", Some "eu", None);
     ("raw", None, Some 7);
     ("web", Some "eu", Some 20)]
    1000.

(** The last month that [datetime] can hold. *)
Definition last_month : Warehouse :=
  mkWarehouse (mkDatetime 9999 12 15 8 30 0 0) 0 (Some 0) [] 0.

End Scripted.

(** The scripted client with the listing of the datasets refused. *)
Definition locked_client
  : Client Scripted.Warehouse Scripted.SJob (list Row) :=
  mkClient
    Scripted.project_name
    Scripted.s_query
    (fun j wh => (Scripted.sj_rows j, wh))
    Scripted.sj_processed
    (fun _ wh => (LFail Scripted.Forbidden, wh))
    Scripted.s_get_dataset
    (fun j _ wh => (Scripted.sj_rows j, wh)).

(** The scripted client with a listing of the datasets that fails after
    its first item. *)
Definition flaky_client
  : Client Scripted.Warehouse Scripted.SJob (list Row) :=
  mkClient
    Scripted.project_name
    Scripted.s_query
    (fun j wh => (Scripted.sj_rows j, wh))
    Scripted.sj_processed
    (fun p wh =>
       (LItem (mkItem (mkRef p "sales")) (fun w => w)
              (fun _ => LFail Scripted.Forbidden),
        wh))
    Scripted.s_get_dataset
    (fun j _ wh => (Scripted.sj_rows j, wh)).


(** A client whose every query succeeds with an empty result set. *)
Definition empty_client
  : Client Scripted.Warehouse Scripted.SJob (list Row) :=
  mkClient
    Scripted.project_name
    (fun _ wh => (Ok (Scripted.mkSJob (Ok []) None), wh))
    (fun j wh => (Scripted.sj_rows j, wh))
    Scripted.sj_processed
    (fun _ wh => (LEnd, wh))
    Scripted.s_get_dataset
    (fun j _ wh => (Scripted.sj_rows j, wh)).

(** ** Checkers run by the proofs *)

(** The month after (y, m). *)
Definition next_month (y m : Z) : Z * Z :=
  if m =? 12 then (y + 1, 1) else (y, m + 1).

(** Four days after the 28th of (y, m) lies in the month after (y, m). *)
Definition day_32_ok (y m : Z) : bool :=
  let '(y', m', _) := ord2ymd (ymd2ord y m 28 + 4) in
  let '(ny, nm) := next_month y m in
  (y' =? ny) && (m' =? nm).

(** [f] holds on [count] consecutive integers from [start]. *)
Fixpoint all_from (f : Z -> bool) (start : Z) (count : nat) : bool :=
  match count with
  | O => true
  | S c => f start && all_from f (start + 1) c
  end.

(** The query is a dry run. *)
Definition is_dry_run (c : QueryCall) : bool :=
  match q_job_config c with
  | Some cfg => match dry_run cfg with Some true => true | _ => false end
  | None => false
  end.

(** Kinds of recorded calls. *)
Definition not_dry_run_event {Job : Type} (ev : Event Job) : bool :=
  match ev with
  | EvQuery c => negb (is_dry_run c)
  | _ => true
  end.

(** A metadata query that is not a dry run, or the reading of its rows. *)
Definition metadata_event {Job : Type} (ev : Event Job) : bool :=
  match ev with
  | EvQuery c => negb (is_dry_run c)
  | EvRows _ => true
  | _ => false
  end.

(** A call of the loop over the datasets: [get_dataset], or a query
    without job configuration, run at a location that upper-cases to
    [location], or the reading of its rows. *)
Definition dataset_event {Job : Type} (location : string) (ev : Event Job)
  : bool :=
  match ev with
  | EvGetDataset _ => true
  | EvQuery c =>
      match q_job_config c with
      | None => String.eqb (upper (or_empty (q_location c))) location
      | Some _ => false
      end
  | EvRows _ => true
  | _ => false
  end.

Definition is_list_datasets {Job : Type} (ev : Event Job) : bool :=
  match ev with
  | EvListDatasets _ => true
  | _ => false
  end.

(** [m] records only calls of kind [f], after those already recorded. *)
Definition logs_only {W Job A : Type} (f : Event Job -> bool)
           (m : State W Job -> Res A * State W Job) : Prop :=
  forall st r st',
    m st = (r, st') ->
    exists evs, calls st' = (calls st ++ evs)%list /\ forallb f evs = true.


(** The outcome of a computation that started from 0, once [t] is added
    to its value. *)
Definition add_to {W Job : Type} (t : Z) (x : Res Z * State W Job)
  : Res Z * State W Job :=
  match x with
  | (Ok n, st) => (Ok (t + n), st)
  | (Raise e, st) => (Raise e, st)
  end.



(** Some way of going through the listing ends in the failure [e]. *)
Inductive listing_fails {W : Type} : Listing W -> Exc -> Prop :=
| fails_now (e : Exc) : listing_fails (LFail e) e
| fails_later (d : DatasetListItem) (after : W -> W)
              (rest : W -> Listing W) (w : W) (e : Exc) :
    listing_fails (rest w) e -> listing_fails (LItem d after rest) e.

(** * Properties *)

(** ** Strings *)

Lemma is_space_upper_char (c : ascii) : is_space (upper_char c) = is_space c.
Proof.
  destruct c as [[] [] [] [] [] [] [] []]; reflexivity.
Qed.

Lemma upper_char_idempotent (c : ascii) :
  upper_char (upper_char c) = upper_char c.
Proof.
  destruct c as [[] [] [] [] [] [] [] []]; reflexivity.
Qed.

Lemma upper_idempotent (s : string) : upper (upper s) = upper s.
Proof.
  induction s as [|c r IH]; simpl; [reflexivity|].
  now rewrite upper_char_idempotent, IH.
Qed.

Lemma upper_app (s t : string) : upper (s ++ t) = upper s ++ upper t.
Proof.
  induction s as [|c r IH]; simpl; [reflexivity | now rewrite IH].
Qed.

Lemma lstrip_upper (s : string) : lstrip (upper s) = upper (lstrip s).
Proof.
  induction s as [|c r IH]; simpl; [reflexivity|].
  rewrite is_space_upper_char. destruct (is_space c); [exact IH | reflexivity].
Qed.

Lemma rstrip_upper (s : string) : rstrip (upper s) = upper (rstrip s).
Proof.
  induction s as [|c r IH]; simpl; [reflexivity|].
  rewrite IH, is_space_upper_char.
  destruct (rstrip r); simpl; [destruct (is_space c)|]; reflexivity.
Qed.

Lemma strip_upper (s : string) : strip (upper s) = upper (strip s).
Proof.
  unfold strip. now rewrite lstrip_upper, rstrip_upper.
Qed.

Lemma lstrip_all_space (ws : string) :
  all_space ws = true -> lstrip ws = EmptyString.
Proof.
  induction ws as [|c r IH]; simpl; [reflexivity|].
  intros H. apply andb_true_iff in H as [Hc Hr]. rewrite Hc. auto.
Qed.

Lemma rstrip_all_space (ws : string) :
  all_space ws = true -> rstrip ws = EmptyString.
Proof.
  induction ws as [|c r IH]; simpl; [reflexivity|].
  intros H. apply andb_true_iff in H as [Hc Hr]. now rewrite (IH Hr), Hc.
Qed.

Lemma lstrip_app_space (ws s : string) :
  all_space ws = true -> lstrip (ws ++ s) = lstrip s.
Proof.
  induction ws as [|c r IH]; simpl; [reflexivity|].
  intros H. apply andb_true_iff in H as [Hc Hr]. rewrite Hc. auto.
Qed.

Lemma rstrip_app_space (s ws : string) :
  all_space ws = true -> rstrip (s ++ ws) = rstrip s.
Proof.
  intros H. induction s as [|c r IH]; simpl.
  - now apply rstrip_all_space.
  - now rewrite IH.
Qed.

Lemma strip_app_space_r (s ws : string) :
  all_space ws = true -> strip (s ++ ws) = strip s.
Proof.
  intros H. unfold strip. induction s as [|c r IH]; simpl.
  - now rewrite (lstrip_all_space ws H).
  - destruct (is_space c); [exact IH|].
    change (String c (r ++ ws)) with (String c r ++ ws).
    now apply rstrip_app_space.
Qed.

Lemma strip_padded (ws1 s ws2 : string) :
  all_space ws1 = true -> all_space ws2 = true ->
  strip (ws1 ++ s ++ ws2) = strip s.
Proof.
  intros H1 H2. unfold strip at 1. rewrite (lstrip_app_space _ _ H1).
  now apply strip_app_space_r.
Qed.

(** The text after the prefix is what [split("-", 1)[1]] yields, so the
    index is in range wherever the source evaluates it. *)
Lemma split1_region_prefix (r : string) :
  startswith r "region-" = true ->
  exists rest, r = "region-" ++ rest
               /\ split1 "-"%char r = ["region"; rest].
Proof.
  intros H.
  repeat (destruct r as [|? r]; [discriminate H|];
          cbn [startswith] in H; apply andb_true_iff in H as [E H];
          apply Ascii.eqb_eq in E; subst).
  exists r. split; reflexivity.
Qed.

Lemma split_second_region_prefix (rest : string) :
  split_second ("region-" ++ rest) = rest.
Proof. reflexivity. Qed.

Lemma region_to_location_upper (s : string) :
  upper (_region_to_location s) = _region_to_location s.
Proof.
  unfold _region_to_location.
  destruct (str_in _ _); [apply upper_idempotent|].
  destruct (startswith _ _); apply upper_idempotent.
Qed.

Lemma region_to_location_case (s t : string) :
  upper s = upper t ->
  startswith (strip s) "region-" = startswith (strip t) "region-" ->
  _region_to_location s = _region_to_location t.
Proof.
  intros Hu Hp.
  assert (Hs : upper (strip s) = upper (strip t))
    by (now rewrite <- !strip_upper, Hu).
  unfold _region_to_location. rewrite Hs, Hp.
  destruct (str_in _ _); [reflexivity|].
  destruct (startswith (strip t) "region-") eqn:Et; [|reflexivity].
  destruct (split1_region_prefix _ Hp) as (a & Ea & _).
  destruct (split1_region_prefix _ Et) as (b & Eb & _).
  rewrite Ea, Eb in *. rewrite !split_second_region_prefix.
  rewrite !upper_app in Hs. simpl in Hs. now injection Hs.
Qed.

(** C4, as stated, fails: the prefix "region-" is matched as written, so
    two spellings that differ only in letter case need not normalize to the
    same code ("Region-EU" gives "REGION-EU", "region-eu" gives "EU"). *)
Lemma region_to_location_not_case_insensitive :
  ~ (forall s t : string,
        upper s = upper t -> _region_to_location s = _region_to_location t).
Proof.
  intros H. specialize (H "Region-EU" "region-eu" eq_refl). discriminate H.
Qed.

(** C4 (amended): the four spellings of the specification normalize to
    "EU" and "US"; white space around the input is ignored; the result is
    upper case; and two inputs that differ only in letter case normalize to
    the same code when they agree on whether, once trimmed, they start with
    the prefix "region-" written in lower case.  A prefix in another case
    is kept: "Region-EU" and "REGION-eu" give "REGION-EU". *)
Theorem region_to_location_normalizes :
  (_region_to_location "region-eu" = "EU"
   /\ _region_to_location "region-us" = "US"
   /\ _region_to_location "EU" = "EU"
   /\ _region_to_location "us" = "US")
  /\ (forall ws1 s ws2 : string,
         all_space ws1 = true -> all_space ws2 = true ->
         _region_to_location (ws1 ++ s ++ ws2) = _region_to_location s)
  /\ (forall s : string,
         upper (_region_to_location s) = _region_to_location s)
  /\ (forall s t : string,
         upper s = upper t ->
         startswith (strip s) "region-" = startswith (strip t) "region-" ->
         _region_to_location s = _region_to_location t)
  /\ (_region_to_location "Region-EU" = "REGION-EU"
      /\ _region_to_location "REGION-eu" = "REGION-EU").
Proof.
  split; [repeat split|].
  split.
  { intros ws1 s ws2 H1 H2. unfold _region_to_location.
    now rewrite (strip_padded _ _ _ H1 H2). }
  split; [exact region_to_location_upper|].
  split; [exact region_to_location_case|].
  split; reflexivity.
Qed.

Lemma region_to_location_normalizes_witness :
  _region_to_location (" " ++ "region-EU" ++ "  ")
  = _region_to_location "region-EU"
  /\ _region_to_location "region-Eu" = _region_to_location "region-eU".
Proof.
  split.
  - apply (proj1 (proj2 region_to_location_normalizes)); reflexivity.
  - apply (proj1 (proj2 (proj2 (proj2 region_to_location_normalizes))));
      reflexivity.
Defined.


(** ** The bounds of the month *)

Lemma all_from_spec (f : Z -> bool) (count : nat) :
  forall start : Z,
    all_from f start count = true ->
    forall z : Z, start <= z < start + Z.of_nat count -> f z = true.
Proof.
  induction count as [|c IH]; intros s H z Hz; [lia|].
  simpl in H. apply andb_true_iff in H as [H0 H1].
  destruct (Z.eq_dec z s) as [->|]; [exact H0|].
  apply (IH (s + 1) H1). lia.
Qed.

(** The calendar repeats every 400 years, that is every 146097 days. *)
Lemma days_before_year_shift (y j : Z) :
  days_before_year (y + 400 * j) = days_before_year y + 146097 * j.
Proof.
  unfold days_before_year. cbv zeta.
  replace ((y + 400 * j - 1) / 4) with ((y - 1) / 4 + 100 * j)
    by (rewrite <- Z.div_add by lia; f_equal; lia).
  replace ((y + 400 * j - 1) / 100) with ((y - 1) / 100 + 4 * j)
    by (rewrite <- Z.div_add by lia; f_equal; lia).
  replace ((y + 400 * j - 1) / 400) with ((y - 1) / 400 + j)
    by (rewrite <- Z.div_add by lia; f_equal; lia).
  lia.
Qed.

Lemma is_leap_shift (y j : Z) : is_leap (y + 400 * j) = is_leap y.
Proof.
  unfold is_leap.
  replace ((y + 400 * j) mod 4) with (y mod 4)
    by (rewrite <- (Z.mod_add y (100 * j) 4) by lia; f_equal; lia).
  replace ((y + 400 * j) mod 100) with (y mod 100)
    by (rewrite <- (Z.mod_add y (4 * j) 100) by lia; f_equal; lia).
  replace ((y + 400 * j) mod 400) with (y mod 400)
    by (rewrite <- (Z.mod_add y j 400) by lia; f_equal; lia).
  reflexivity.
Qed.

Lemma ymd2ord_shift (y m d j : Z) :
  ymd2ord (y + 400 * j) m d = ymd2ord y m d + 146097 * j.
Proof.
  unfold ymd2ord, days_before_month.
  rewrite days_before_year_shift, is_leap_shift. lia.
Qed.

Lemma ord2ymd_shift (n j : Z) :
  ord2ymd (n + 146097 * j)
  = let '(y, m, d) := ord2ymd n in (y + 400 * j, m, d).
Proof.
  unfold ord2ymd, DI400Y. cbv zeta.
  replace (n + 146097 * j - 1) with (n - 1 + j * 146097) by lia.
  rewrite Z.div_add, Z.mod_add by lia.
  set (r := (n - 1) mod 146097).
  destruct ((r mod DI100Y mod DI4Y / 365 =? 4) || (r / DI100Y =? 4)).
  - f_equal. f_equal. lia.
  - destruct (_ <? _); f_equal; f_equal; lia.
Qed.

Lemma first_cycle_ok :
  all_from (fun y => all_from (day_32_ok y) 1 12) 1 400 = true.
Proof. vm_compute. reflexivity. Qed.

Lemma day_32_ok_first_cycle (y m : Z) :
  1 <= y <= 400 -> 1 <= m <= 12 -> day_32_ok y m = true.
Proof.
  intros Hy Hm.
  apply (all_from_spec (day_32_ok y) 12 1); [|lia].
  apply (all_from_spec (fun y => all_from (day_32_ok y) 1 12) 400 1
           first_cycle_ok). lia.
Qed.

Lemma day_32_next_month (y m : Z) :
  1 <= y -> 1 <= m <= 12 ->
  exists d : Z,
    ord2ymd (ymd2ord y m 28 + 4)
    = (fst (next_month y m), snd (next_month y m), d).
Proof.
  intros Hy Hm.
  pose proof (Z.div_mod (y - 1) 400 ltac:(lia)) as E.
  pose proof (Z.mod_pos_bound (y - 1) 400 ltac:(lia)) as B.
  set (j := (y - 1) / 400) in *. set (y0 := (y - 1) mod 400 + 1).
  assert (Ey : y = y0 + 400 * j) by (unfold y0; lia).
  pose proof (day_32_ok_first_cycle y0 m ltac:(unfold y0; lia) Hm) as H.
  rewrite Ey, ymd2ord_shift.
  replace (ymd2ord y0 m 28 + 146097 * j + 4)
    with (ymd2ord y0 m 28 + 4 + 146097 * j) by lia.
  rewrite ord2ymd_shift.
  unfold day_32_ok in H.
  destruct (ord2ymd (ymd2ord y0 m 28 + 4)) as [[y' m'] d].
  unfold next_month in *. exists d.
  destruct (m =? 12); apply andb_true_iff in H as [H1 H2];
    apply Z.eqb_eq in H1, H2; subst y' m'; simpl; f_equal; f_equal; lia.
Qed.

Lemma days_before_year_mono (y : Z) :
  1 <= y <= 9998 -> 0 <= days_before_year y <= 3651329.
Proof.
  intros Hy. unfold days_before_year. cbv zeta.
  Z.div_mod_to_equations. lia.
Qed.

Lemma days_before_month_bound (y m : Z) :
  1 <= m <= 12 -> 0 <= days_before_month y m <= 335.
Proof.
  intros Hm. unfold days_before_month.
  assert (Hc : m = 1 \/ m = 2 \/ m = 3 \/ m = 4 \/ m = 5 \/ m = 6 \/ m = 7
               \/ m = 8 \/ m = 9 \/ m = 10 \/ m = 11 \/ m = 12) by lia.
  repeat (destruct Hc as [->|Hc]); [..|subst m]; simpl;
    destruct (is_leap y); simpl; lia.
Qed.

Lemma day_32_in_range (y m : Z) :
  1 <= y <= 9999 -> 1 <= m <= 12 -> y < 9999 \/ m < 12 ->
  0 < ymd2ord y m 28 + 4 <= MAXORDINAL.
Proof.
  intros Hy Hm Hlast. unfold ymd2ord, MAXORDINAL.
  destruct (Z.eq_dec y 9999) as [->|Hne].
  - assert (Hc : m = 1 \/ m = 2 \/ m = 3 \/ m = 4 \/ m = 5 \/ m = 6 \/ m = 7
                 \/ m = 8 \/ m = 9 \/ m = 10 \/ m = 11) by lia.
    repeat (destruct Hc as [->|Hc]); [..|subst m]; vm_compute; split;
      congruence.
  - pose proof (days_before_year_mono y ltac:(lia)).
    pose proof (days_before_month_bound y m Hm). lia.
Qed.

Lemma days_in_month_ge_28 (y m : Z) :
  1 <= m <= 12 -> 28 <= days_in_month y m.
Proof.
  intros Hm. unfold days_in_month.
  destruct ((m =? 2) && is_leap y); [lia|].
  assert (Hc : m = 1 \/ m = 2 \/ m = 3 \/ m = 4 \/ m = 5 \/ m = 6 \/ m = 7
               \/ m = 8 \/ m = 9 \/ m = 10 \/ m = 11 \/ m = 12) by lia.
  repeat (destruct Hc as [->|Hc]); [..|subst m]; simpl; lia.
Qed.

Lemma make_datetime_ok (y m d h mi s us : Z) :
  1 <= y <= 9999 -> 1 <= m <= 12 -> 1 <= d <= 28 ->
  0 <= h <= 23 -> 0 <= mi <= 59 -> 0 <= s <= 59 -> 0 <= us <= 999999 ->
  make_datetime y m d h mi s us = Ok (mkDatetime y m d h mi s us).
Proof.
  intros Hy Hm Hd Hh Hmi Hs Hus.
  pose proof (days_in_month_ge_28 y m Hm).
  unfold make_datetime, check_date_fields, check_time_fields, MINYEAR, MAXYEAR.
  repeat match goal with
         | |- context [?a <=? ?b] =>
             rewrite (proj2 (Z.leb_le a b)) by lia
         end.
  reflexivity.
Qed.

Lemma valid_datetime_range (d : datetime) :
  valid_datetime d = true -> 1 <= year d <= 9999 /\ 1 <= month d <= 12.
Proof.
  unfold valid_datetime, make_datetime, check_date_fields, MINYEAR, MAXYEAR.
  destruct ((1 <=? year d) && (year d <=? 9999)) eqn:Ey; simpl;
    [|discriminate].
  destruct ((1 <=? month d) && (month d <=? 12)) eqn:Em; simpl;
    [|discriminate].
  intros _. apply andb_true_iff in Ey as [? ?], Em as [? ?]. lia.
Qed.

(** Adding whole days to a midnight goes through the ordinal alone. *)
Lemma datetime_add_days_midnight (y m d k : Z) :
  datetime_add (mkDatetime y m d 0 0 0 0) (make_timedelta k 0 0)
  = if (0 <? ymd2ord y m d + k) && (ymd2ord y m d + k <=? MAXORDINAL)
    then let '(y', m', d') := ord2ymd (ymd2ord y m d + k) in
         Ok (mkDatetime y' m' d' 0 0 0 0)
    else Raise (OverflowError "date value out of range").
Proof.
  unfold datetime_add, timedelta_add, make_timedelta, toordinal.
  cbn [td_days td_seconds td_microseconds
       year month day hour minute second microsecond].
  change (0 * 3600 + 0 * 60 + 0) with 0.
  repeat (rewrite ?Z.add_0_r, ?Zdiv_0_l, ?Zmod_0_l; cbn [Z.add]).
  reflexivity.
Qed.

Lemma next_month_range (y m : Z) :
  1 <= y <= 9999 -> 1 <= m <= 12 -> y < 9999 \/ m < 12 ->
  1 <= fst (next_month y m) <= 9999 /\ 1 <= snd (next_month y m) <= 12.
Proof.
  intros Hy Hm Hlast. unfold next_month.
  destruct (Z.eqb_spec m 12); simpl; lia.
Qed.

Lemma first_of_next_month_eq (y m : Z) :
  first_of_next_month y m
  = mkDatetime (fst (next_month y m)) (snd (next_month y m)) 1 0 0 0 0.
Proof.
  unfold first_of_next_month, next_month. now destruct (m =? 12).
Qed.

Lemma month_start_before_next (y m : Z) :
  1 <= m <= 12 ->
  datetime_ltb (mkDatetime y m 1 0 0 0 0) (first_of_next_month y m) = true.
Proof.
  intros Hm. unfold first_of_next_month, datetime_ltb, to_fields.
  destruct (Z.eqb_spec m 12); cbn [lex_ltb year month day hour minute second
                                   microsecond].
  - rewrite (proj2 (Z.ltb_lt y (y + 1))) by lia. reflexivity.
  - rewrite Z.eqb_refl, (proj2 (Z.ltb_lt m (m + 1))) by lia.
    now rewrite orb_true_r.
Qed.

Lemma month_bounds_of_spec (now : datetime) :
  valid_datetime now = true ->
  year now < 9999 \/ month now < 12 ->
  month_bounds_of now
  = Ok (mkDatetime (year now) (month now) 1 0 0 0 0,
        first_of_next_month (year now) (month now)).
Proof.
  intros Hv Hlast. destruct (valid_datetime_range _ Hv) as [Hy Hm].
  unfold month_bounds_of, replace_day_time, replace_day.
  rewrite make_datetime_ok by lia. cbn [year month day hour minute second
                                        microsecond].
  rewrite make_datetime_ok by lia.
  rewrite datetime_add_days_midnight.
  pose proof (day_32_in_range _ _ Hy Hm Hlast) as [Hlo Hhi].
  rewrite (proj2 (Z.ltb_lt _ _) Hlo), (proj2 (Z.leb_le _ _) Hhi).
  cbn [andb].
  destruct (day_32_next_month (year now) (month now)) as [d Ed]; [lia|lia|].
  rewrite Ed.
  pose proof (next_month_range _ _ Hy Hm Hlast) as [Hny Hnm].
  unfold replace_day. cbn [year month day hour minute second microsecond].
  rewrite make_datetime_ok by lia.
  now rewrite first_of_next_month_eq.
Qed.

(** C3, as stated, fails in the last month that [datetime] can hold: the
    28th of December 9999 plus four days is out of range, and the function
    raises [OverflowError] instead of returning a pair. *)
Lemma month_bounds_utc_last_month_raises :
  valid_datetime (Scripted.clock Scripted.last_month) = true
  /\ _month_bounds_utc Scripted.clock (Scripted.initial Scripted.last_month)
     = (Raise (OverflowError "date value out of range"),
        Scripted.initial Scripted.last_month).
Proof. split; reflexivity. Qed.

(** C3 (amended): for every current date before December 9999,
    [_month_bounds_utc] returns a pair (start, end) in which start is the
    first instant (day 1, 00:00:00.000000) of the current month, end is the
    first instant of the month that follows it, across the end of the year
    as well, and end > start. *)
Theorem month_bounds_utc_spec
        {W Job : Type} (clock : W -> datetime) (st : State W Job) :
  valid_datetime (clock (world st)) = true ->
  year (clock (world st)) < 9999 \/ month (clock (world st)) < 12 ->
  exists start end_ : datetime,
    _month_bounds_utc clock st = (Ok (start, end_), st)
    /\ start = mkDatetime (year (clock (world st))) (month (clock (world st)))
                          1 0 0 0 0
    /\ end_ = first_of_next_month (year (clock (world st)))
                                  (month (clock (world st)))
    /\ datetime_ltb start end_ = true.
Proof.
  intros Hv Hlast. pose proof (month_bounds_of_spec _ Hv Hlast) as E.
  destruct (valid_datetime_range _ Hv) as [_ Hm].
  eexists _, _. unfold _month_bounds_utc. rewrite E.
  repeat split. now apply month_start_before_next.
Qed.

Lemma month_bounds_utc_spec_witness :
  exists start end_ : datetime,
    _month_bounds_utc Scripted.clock (Scripted.initial Scripted.quiet)
    = (Ok (start, end_), Scripted.initial Scripted.quiet)
    /\ start = mkDatetime 2024 2 1 0 0 0 0
    /\ end_ = mkDatetime 2024 3 1 0 0 0 0
    /\ datetime_ltb start end_ = true.
Proof.
  apply (month_bounds_utc_spec Scripted.clock
           (Scripted.initial Scripted.quiet)).
  - reflexivity.
  - left. reflexivity.
Defined.

(** The months of the specification's examples and one of each length. *)
Example month_bounds_examples :
  month_bounds_of (mkDatetime 2024 2 29 23 59 59 999999)
  = Ok (mkDatetime 2024 2 1 0 0 0 0, mkDatetime 2024 3 1 0 0 0 0)
  /\ month_bounds_of (mkDatetime 2024 12 31 23 59 59 999999)
     = Ok (mkDatetime 2024 12 1 0 0 0 0, mkDatetime 2025 1 1 0 0 0 0)
  /\ month_bounds_of (mkDatetime 2023 2 28 0 0 0 0)
     = Ok (mkDatetime 2023 2 1 0 0 0 0, mkDatetime 2023 3 1 0 0 0 0)
  /\ month_bounds_of (mkDatetime 2024 4 30 12 0 0 0)
     = Ok (mkDatetime 2024 4 1 0 0 0 0, mkDatetime 2024 5 1 0 0 0 0)
  /\ month_bounds_of (mkDatetime 2024 1 1 0 0 0 0)
     = Ok (mkDatetime 2024 1 1 0 0 0 0, mkDatetime 2024 2 1 0 0 0 0).
Proof. repeat split. Qed.

(** ** The quota guard *)


(** ** Floats *)

Lemma round_half_even_exact (q d : Z) :
  0 < d -> round_half_even (q * d) d = q.
Proof.
  intros Hd. unfold round_half_even.
  rewrite Z.div_mul, Z.mod_mul by lia.
  now rewrite (proj2 (Z.ltb_lt (2 * 0) d)) by lia.
Qed.

Lemma round_half_even_scale (n d c : Z) :
  0 < d -> 0 < c ->
  round_half_even (n * c) (d * c) = round_half_even n d.
Proof.
  intros Hd Hc. unfold round_half_even.
  rewrite Z.div_mul_cancel_r, Z.mul_mod_distr_r by lia.
  set (r := n mod d).
  replace (2 * (r * c)) with (2 * r * c) by lia.
  destruct (Z.ltb_spec (2 * r) d), (Z.ltb_spec (2 * r * c) (d * c));
    try nia; try reflexivity.
  destruct (Z.ltb_spec d (2 * r)), (Z.ltb_spec (d * c) (2 * r * c));
    try nia; reflexivity.
Qed.

(** The nearest double to a / 2**k for a below 2**53: nothing is rounded
    away. *)
Lemma nearest_double_small (a k : Z) :
  0 < a < 2 ^ 53 -> 0 <= k <= 1000 ->
  nearest_double a (2 ^ k)
  = (a * 2 ^ (52 - Z.log2 a), Z.log2 a - k - 52).
Proof.
  intros Ha Hk. unfold nearest_double.
  rewrite Z.log2_pow2 by lia.
  pose proof (Z.log2_spec a ltac:(lia)) as [Hlo Hhi].
  assert (Hl : 0 <= Z.log2 a <= 52).
  { split; [apply Z.log2_nonneg|].
    apply Z.lt_succ_r. apply Z.log2_lt_pow2; lia. }
  set (l := Z.log2 a) in *.
  assert (Hcmp : (a * 2 ^ Z.max (- (l - k)) 0 <? 2 ^ k * 2 ^ Z.max (l - k) 0)
                 = false).
  { apply Z.ltb_ge. destruct (Z.le_ge_cases k l) as [Hkl|Hkl].
    - rewrite (Z.max_r (- (l - k)) 0), (Z.max_l (l - k) 0) by lia.
      rewrite <- Z.pow_add_r by lia.
      replace (k + (l - k)) with l by lia. change (2 ^ 0) with 1. lia.
    - rewrite (Z.max_l (- (l - k)) 0), (Z.max_r (l - k) 0) by lia.
      change (2 ^ 0) with 1. rewrite Z.mul_1_r.
      replace k with (l + - (l - k)) at 1 by lia.
      rewrite Z.pow_add_r by lia.
      apply Z.mul_le_mono_nonneg_r; [apply Z.pow_nonneg; lia | exact Hlo]. }
  rewrite Hcmp. cbv zeta.
  rewrite (Z.max_l (l - k - 52) (-1074)) by lia.
  rewrite (Z.max_l (- (l - k - 52)) 0), (Z.max_r (l - k - 52) 0) by lia.
  change (2 ^ 0) with 1. rewrite Z.mul_1_r.
  replace (- (l - k - 52)) with (52 - l + k) by lia.
  rewrite Z.pow_add_r, Z.mul_assoc by lia.
  rewrite round_half_even_exact by (apply Z.pow_pos_nonneg; lia).
  reflexivity.
Qed.

Lemma pow2_pos (k : Z) : 0 <= k -> 0 < 2 ^ k.
Proof. intros H. apply Z.pow_pos_nonneg; lia. Qed.

Lemma format_f_zero (digits : Z) :
  format_f digits 0%Q = mkNumeral false 0.
Proof.
  unfold format_f, round_half_even. cbn [Qnum Qden Z.abs].
  rewrite Z.mul_0_l. reflexivity.
Qed.

(** Below 2**53 in magnitude, [a / 2**k] is exact: it does not overflow,
    the double is a / 2**k itself, and it is rendered as that quotient
    rounded to the digits asked for. *)
Lemma truediv_small (a k : Z) :
  Z.abs a < 2 ^ 53 -> 0 <= k <= 1000 ->
  exists q : Q,
    truediv a (2 ^ k) = Ok q
    /\ (q == a # Z.to_pos (2 ^ k))%Q
    /\ forall digits : Z,
        0 <= digits ->
        format_f digits q
        = mkNumeral (a <? 0)
                    (round_half_even (Z.abs a * 10 ^ digits) (2 ^ k)).
Proof.
  intros Ha Hk. pose proof (pow2_pos k ltac:(lia)) as Hpk.
  unfold truediv.
  rewrite (proj2 (Z.eqb_neq (2 ^ k) 0)) by lia.
  destruct (Z.eqb_spec a 0) as [->|Hne].
  { exists 0%Q. split; [reflexivity|]. split; [reflexivity|].
    intros digits _. rewrite format_f_zero. cbn [Z.abs Z.ltb Z.compare].
    rewrite Z.mul_0_l. unfold round_half_even.
    rewrite Z.div_0_l, Z.mod_0_l by lia.
    now rewrite (proj2 (Z.ltb_lt (2 * 0) (2 ^ k))) by lia. }
  rewrite (Z.abs_eq (2 ^ k)) by lia.
  rewrite nearest_double_small by lia.
  set (l := Z.log2 (Z.abs a)).
  assert (Hl : 0 <= l <= 52).
  { split; [apply Z.log2_nonneg|].
    apply Z.lt_succ_r. apply Z.log2_lt_pow2; lia. }
  pose proof (Z.log2_spec (Z.abs a) ltac:(lia)) as [Hlo Hhi].
  fold l in Hlo, Hhi.
  pose proof (pow2_pos (52 - l) ltac:(lia)) as Hc.
  set (c := 2 ^ (52 - l)) in *.
  assert (Hm : Z.abs a * c < 2 ^ 53).
  { replace 53 with (Z.succ l + (52 - l)) by lia.
    rewrite Z.pow_add_r by lia. fold c. nia. }
  assert (Hover : (2 ^ 1024 <=? Z.abs a * c * 2 ^ (l - k - 52)) = false).
  { apply Z.leb_gt.
    assert (2 ^ 53 < 2 ^ 1024) by (apply Z.pow_lt_mono_r; lia).
    destruct (Z.eq_dec (l - k - 52) 0) as [->|Hneg].
    - change (2 ^ 0) with 1. lia.
    - rewrite (Z.pow_neg_r 2 (l - k - 52)) by lia. lia. }
  rewrite Hover.
  rewrite (Z.max_r (l - k - 52) 0), (Z.max_l (- (l - k - 52)) 0) by lia.
  change (2 ^ 0) with 1.
  replace (- (l - k - 52)) with (k + (52 - l)) by lia.
  rewrite Z.pow_add_r by lia. fold c.
  assert (Hs : Z.sgn (2 ^ k) = 1) by (apply Z.sgn_pos; lia).
  rewrite Hs.
  assert (Hnum : Z.sgn a * 1 * (Z.abs a * c) * 1 = a * c).
  { destruct (Z.abs_spec a) as [[Hs0 ->]|[Hs0 ->]].
    - rewrite (Z.sgn_pos a) by lia. lia.
    - rewrite (Z.sgn_neg a) by lia. lia. }
  rewrite Hnum.
  eexists. split; [reflexivity|]. split.
  - unfold Qeq. cbn [Qnum Qden].
    rewrite !Z2Pos.id by nia. lia.
  - intros digits Hd. unfold format_f. cbn [Qnum Qden]. f_equal.
    + unfold Qle_bool. cbn [Qnum Qden].
      rewrite Z.mul_0_l, Z.mul_1_r.
      destruct (Z.leb_spec 0 (a * c)), (Z.ltb_spec a 0);
        try reflexivity; nia.
    + rewrite Z2Pos.id by nia.
      rewrite Z.abs_mul, (Z.abs_eq c) by lia.
      replace (Z.abs a * c * 10 ^ digits)
        with (Z.abs a * 10 ^ digits * c) by lia.
      apply round_half_even_scale; lia.
Qed.

Lemma fits_float_small (a k : Z) :
  Z.abs a < 2 ^ 53 -> 0 <= k <= 1000 -> fits_float a (2 ^ k) = true.
Proof.
  intros Ha Hk. unfold fits_float.
  now destruct (truediv_small a k Ha Hk) as (q & -> & _).
Qed.

Section GuardProperties.

Context {W Job DataFrame : Type}.
Variable clock : W -> datetime.
Variable client : Client W Job DataFrame.

(** Once the two probes and the estimate have returned, the guard is the
    two comparisons, in the order of the source. *)
Lemma check_free_tier_allowance_run
      (project_id : option string) (regions : list string)
      (sql loc : option string) (ql sl : Z)
      (st st1 st2 st3 : State W Job) (used_query used_storage planned : Z) :
  _sum_query_bytes_billed clock client regions st = (Ok used_query, st1) ->
  _sum_storage_bytes client regions
    (Some (resolve_project client project_id)) st1
  = (Ok used_storage, st2) ->
  planned_query_bytes client sql loc st2 = (Ok planned, st3) ->
  check_free_tier_allowance clock client project_id regions sql loc ql sl st
  = (if used_query + planned >? ql then
       Raise (query_quota_exception used_query planned ql)
     else if used_storage >? sl then
       Raise (storage_quota_exception used_storage sl)
     else
       Ok [("used_query_bytes", used_query);
           ("planned_query_bytes", planned);
           ("query_limit_bytes", ql);
           ("used_storage_bytes", used_storage);
           ("storage_limit_bytes", sl)],
     st3).
Proof.
  intros Hq Hs Hp. unfold check_free_tier_allowance, bind.
  rewrite Hq, Hs, Hp.
  destruct (used_query + planned >? ql); [reflexivity|].
  destruct (used_storage >? sl); reflexivity.
Qed.

(** C1: when the probes yield used_query and used_storage and the
    estimate yields planned, [check_free_tier_allowance] returns normally
    if and only if used_query + planned <= query_limit_bytes and
    used_storage <= storage_limit_bytes, and what it returns is the
    snapshot of exactly these five values. *)
Theorem check_free_tier_allowance_succeeds_iff
        (project_id : option string) (regions : list string)
        (sql loc : option string) (ql sl : Z)
        (st st1 st2 st3 : State W Job)
        (used_query used_storage planned : Z) :
  _sum_query_bytes_billed clock client regions st = (Ok used_query, st1) ->
  _sum_storage_bytes client regions
    (Some (resolve_project client project_id)) st1
  = (Ok used_storage, st2) ->
  planned_query_bytes client sql loc st2 = (Ok planned, st3) ->
  ((exists stats st',
       check_free_tier_allowance clock client project_id regions sql loc
         ql sl st = (Ok stats, st'))
   <-> used_query + planned <= ql /\ used_storage <= sl)
  /\ (forall stats st',
         check_free_tier_allowance clock client project_id regions sql loc
           ql sl st = (Ok stats, st') ->
         stats = [("used_query_bytes", used_query);
                  ("planned_query_bytes", planned);
                  ("query_limit_bytes", ql);
                  ("used_storage_bytes", used_storage);
                  ("storage_limit_bytes", sl)]
         /\ st' = st3).
Proof.
  intros Hq Hs Hp.
  rewrite (check_free_tier_allowance_run _ _ _ _ ql sl _ _ _ _ _ _ _
             Hq Hs Hp).
  destruct (Z.gtb_spec (used_query + planned) ql) as [Hgt|Hle].
  { split; [split|]; [intros (? & ? & [=]) | lia | intros ? ? [=]]. }
  destruct (Z.gtb_spec used_storage sl) as [Hgt'|Hle'].
  { split; [split|]; [intros (? & ? & [=]) | lia | intros ? ? [=]]. }
  split; [split|].
  - intros _. lia.
  - intros _. eexists _, _. reflexivity.
  - intros ? ? [= <- <-]. split; reflexivity.
Qed.

(** *** The exceptions of the two refusals *)

Lemma truediv_raise (a b : Z) (e : Exc) :
  b <> 0 -> truediv a b = Raise e ->
  e = OverflowError "integer division result too large for a float".
Proof.
  intros Hb. unfold truediv.
  rewrite (proj2 (Z.eqb_neq b 0) Hb).
  destruct (a =? 0); [discriminate|].
  destruct (nearest_double _ _) as [m x].
  destruct (_ <=? _); [|discriminate]. now intros [= <-].
Qed.














(** *** What the computations record *)

Section Logs.

Variable f : Event Job -> bool.

Lemma logs_only_ret {A : Type} (a : A) : logs_only f (@ret W Job A a).
Proof.
  intros st r st' [= <- <-]. exists []. now rewrite app_nil_r.
Qed.

Lemma logs_only_raise {A : Type} (e : Exc) :
  logs_only f (@raise W Job A e).
Proof.
  intros st r st' [= <- <-]. exists []. now rewrite app_nil_r.
Qed.

Lemma logs_only_lift {A : Type} (x : Res A) :
  logs_only f (@lift W Job A x).
Proof.
  intros st r st' [= <- <-]. exists []. now rewrite app_nil_r.
Qed.

Lemma logs_only_print (o : Output) : logs_only f (@print W Job o).
Proof.
  intros st r st' [= <- <-]. exists []. simpl. now rewrite app_nil_r.
Qed.

Lemma logs_only_call {A : Type} (ev : Event Job)
      (op : W -> Res A * W) :
  f ev = true -> logs_only f (call ev op).
Proof.
  intros Hev st r st'. unfold call.
  destruct (op (world st)) as [r0 w]. intros [= <- <-].
  exists [ev]. simpl. now rewrite Hev.
Qed.

Lemma logs_only_bind {A B : Type} (m : M A) (k : A -> M B) :
  logs_only f m -> (forall a, logs_only f (k a)) ->
  logs_only f (@bind W Job A B m k).
Proof.
  intros Hm Hk st r st'. unfold bind.
  destruct (m st) as [[a|e] st1] eqn:E.
  - intros H. destruct (Hm _ _ _ E) as (evs1 & E1 & F1).
    destruct (Hk a _ _ _ H) as (evs2 & E2 & F2).
    exists (evs1 ++ evs2)%list. rewrite E2, E1, app_assoc, forallb_app, F1, F2.
    auto.
  - intros [= <- <-]. exact (Hm _ _ _ E).
Qed.

Lemma logs_only_try_except {A : Type} (m : M A) (catches : Exc -> bool)
      (handler : Exc -> M A) :
  logs_only f m -> (forall e, logs_only f (handler e)) ->
  logs_only f (@try_except W Job A m catches handler).
Proof.
  intros Hm Hh st r st'. unfold try_except.
  destruct (m st) as [[a|e] st1] eqn:E.
  - intros [= <- <-]. exact (Hm _ _ _ E).
  - destruct (catches e).
    + intros H. destruct (Hm _ _ _ E) as (evs1 & E1 & F1).
      destruct (Hh e _ _ _ H) as (evs2 & E2 & F2).
      exists (evs1 ++ evs2)%list.
      rewrite E2, E1, app_assoc, forallb_app, F1, F2. auto.
    + intros [= <- <-]. exact (Hm _ _ _ E).
Qed.

Lemma logs_only_for_each {A : Type} (body : A -> Z -> M Z)
      (l : list A) :
  (forall x total, logs_only f (body x total)) ->
  forall total, logs_only f (@for_each W Job A body l total).
Proof.
  intros Hb. induction l as [|x rest IH]; intros total; simpl.
  - apply logs_only_ret.
  - apply logs_only_bind; [apply Hb | exact IH].
Qed.

Lemma logs_only_for_listing (body : DatasetListItem -> Z -> M Z) :
  (forall d total, logs_only f (body d total)) ->
  forall (l : Listing W) (total : Z),
    logs_only f (@for_listing W Job body l total).
Proof.
  intros Hb. induction l as [|e|d after rest IH]; intros total.
  - apply logs_only_ret.
  - apply logs_only_raise.
  - intros st r st'. cbn [for_listing]. unfold bind.
    destruct (body d total st) as [[t|e] s1] eqn:E.
    + intros H. destruct (Hb _ _ _ _ _ E) as (evs1 & E1 & F1).
      destruct (IH _ _ _ _ _ H) as (evs2 & E2 & F2).
      cbn [calls] in E2.
      exists (evs1 ++ evs2)%list.
      rewrite E2, E1, app_assoc, forallb_app, F1, F2. auto.
    + intros [= <- <-]. exact (Hb _ _ _ _ _ E).
Qed.

Lemma logs_only_client_list_datasets (project_id : string) :
  f (EvListDatasets project_id) = true ->
  logs_only f (client_list_datasets client project_id).
Proof.
  intros Hev st r st'. unfold client_list_datasets.
  destruct (list_datasets client project_id (world st)) as [l w].
  intros [= <- <-]. exists [EvListDatasets project_id]. simpl.
  now rewrite Hev.
Qed.

Lemma logs_only_first_row_int (job : Job) (column : string) :
  f (EvRows job) = true ->
  logs_only f (first_row_int client job column).
Proof.
  intros Hf. unfold first_row_int.
  apply logs_only_bind; [now apply logs_only_call|]. intros rows.
  apply logs_only_bind; [apply logs_only_lift|]. intros row.
  apply logs_only_bind; [apply logs_only_lift|]. intros v.
  apply logs_only_lift.
Qed.

(** The calls of the check are of kind [f] as soon as [f] accepts every
    call that the check can write for the project [project_id]. *)
Variable project_id : string.

Hypothesis f_rows : forall j, f (EvRows j) = true.
Hypothesis f_get_dataset : forall r, f (EvGetDataset r) = true.
Hypothesis f_list_datasets : f (EvListDatasets project_id) = true.
Hypothesis f_jobs :
  forall region start end_,
    f (EvQuery
         (mkCall (jobs_sql region)
            (Some (mkConfig
                     [mkParam "start" "TIMESTAMP" (PTimestamp start);
                      mkParam "end" "TIMESTAMP" (PTimestamp end_)]
                     None None))
            (Some (_region_to_location region)))) = true.
Hypothesis f_project_storage :
  forall region,
    f (EvQuery
         (mkCall (project_storage_sql region)
            (Some (mkConfig
                     [mkParam "project" "STRING" (PString project_id)]
                     None None))
            (Some (_region_to_location region)))) = true.
Hypothesis f_dataset_storage :
  forall ds_ref : Dataset,
    f (EvQuery
         (mkCall (dataset_storage_sql project_id (dataset_id ds_ref))
            None (ds_location ds_ref))) = true.


Lemma storage_dataset_logs_kind (location : string)
      (ds : DatasetListItem) (total : Z) :
  logs_only f (storage_dataset client project_id location ds total).
Proof.
  unfold storage_dataset. apply logs_only_try_except.
  - apply logs_only_bind; [apply logs_only_call, f_get_dataset|].
    intros ds_ref. destruct (negb _); [apply logs_only_ret|].
    apply logs_only_bind; [apply logs_only_call, f_dataset_storage|].
    intros job.
    apply logs_only_bind; [apply logs_only_first_row_int, f_rows|].
    intros n. apply logs_only_ret.
  - intros e. apply logs_only_ret.
Qed.

Lemma storage_fallback_logs_kind (location : string) (total : Z) :
  logs_only f (storage_fallback client project_id location total).
Proof.
  unfold storage_fallback.
  apply logs_only_bind;
    [apply logs_only_client_list_datasets, f_list_datasets|].
  intros datasets. apply logs_only_for_listing. intros ds t.
  apply storage_dataset_logs_kind.
Qed.

Lemma storage_region_logs_kind (region : string) (total : Z) :
  logs_only f (storage_region client project_id region total).
Proof.
  intros st r st'. unfold storage_region.
  assert (Hfast : logs_only f
                    (storage_fast_path client project_id region
                       (_region_to_location region))).
  { unfold storage_fast_path.
    apply logs_only_bind; [apply logs_only_call, f_project_storage|].
    intros job. apply logs_only_first_row_int, f_rows. }
  destruct (storage_fast_path _ _ _ _ st) as [[n|e] st1] eqn:E;
    destruct (Hfast _ _ _ E) as (evs1 & E1 & F1).
  - intros [= <- <-]. eauto.
  - intros H.
    destruct (storage_fallback_logs_kind _ _ _ _ _ H) as (evs2 & E2 & F2).
    exists (evs1 ++ evs2)%list.
    rewrite E2, E1, app_assoc, forallb_app, F1, F2. auto.
Qed.

Lemma storage_regions_logs_kind (regions : list string) (total : Z) :
  logs_only f
    (for_each (storage_region client project_id) regions total).
Proof.
  apply logs_only_for_each. intros region t.
  apply storage_region_logs_kind.
Qed.

End Logs.

Lemma logs_only_weaken {A : Type} (f g : Event Job -> bool) (m : M A) :
  (forall ev, f ev = true -> g ev = true) ->
  logs_only f m -> @logs_only W Job A g m.
Proof.
  intros Hfg Hm st r st' E. destruct (Hm _ _ _ E) as (evs & E1 & F1).
  exists evs. split; [exact E1|].
  rewrite forallb_forall in *. auto.
Qed.

Lemma sum_query_bytes_billed_logs (regions : list string) :
  logs_only metadata_event (_sum_query_bytes_billed clock client regions).
Proof.
  unfold _sum_query_bytes_billed. apply logs_only_bind.
  - intros st r st' [= <- <-]. exists []. now rewrite app_nil_r.
  - intros [start end_]. apply logs_only_for_each. intros region total.
    apply logs_only_bind; [now apply logs_only_call|]. intros job.
    apply logs_only_bind; [now apply logs_only_first_row_int|].
    intros billed. apply logs_only_ret.
Qed.

Lemma storage_fast_path_logs (project_id region location : string) :
  logs_only metadata_event
            (storage_fast_path client project_id region location).
Proof.
  unfold storage_fast_path.
  apply logs_only_bind; [now apply logs_only_call|]. intros job.
  now apply logs_only_first_row_int.
Qed.

Lemma storage_dataset_logs (project_id location : string)
      (ds : DatasetListItem) (total : Z) :
  logs_only (dataset_event location)
            (storage_dataset client project_id location ds total).
Proof.
  unfold storage_dataset. apply logs_only_try_except.
  - apply logs_only_bind; [now apply logs_only_call|]. intros ds_ref.
    destruct (String.eqb_spec (upper (or_empty (ds_location ds_ref)))
                              location) as [E|E]; simpl.
    + apply logs_only_bind.
      * apply logs_only_call. simpl. now apply String.eqb_eq.
      * intros job.
        apply logs_only_bind; [now apply logs_only_first_row_int|].
        intros n. apply logs_only_ret.
    + apply logs_only_ret.
  - intros e. apply logs_only_ret.
Qed.

Lemma metadata_event_not_dry_run (ev : Event Job) :
  metadata_event ev = true -> not_dry_run_event ev = true.
Proof. destruct ev; simpl; auto. Qed.

Lemma dataset_event_not_dry_run (location : string) (ev : Event Job) :
  dataset_event location ev = true -> not_dry_run_event ev = true.
Proof.
  destruct ev as [c| | | |]; simpl; auto.
  unfold is_dry_run. now destruct (q_job_config c).
Qed.

Lemma not_dry_run_jobs (region : string) (start end_ : datetime) :
  @not_dry_run_event Job
    (EvQuery
       (mkCall (jobs_sql region)
          (Some (mkConfig
                   [mkParam "start" "TIMESTAMP" (PTimestamp start);
                    mkParam "end" "TIMESTAMP" (PTimestamp end_)]
                   None None))
          (Some (_region_to_location region)))) = true.
Proof. reflexivity. Qed.

Lemma sum_storage_bytes_logs_not_dry_run
      (regions : list string) (project_id : option string) :
  logs_only not_dry_run_event
            (_sum_storage_bytes client regions project_id).
Proof.
  unfold _sum_storage_bytes.
  apply storage_regions_logs_kind; reflexivity.
Qed.

Lemma check_free_tier_allowance_logs_not_dry_run
      (project_id : option string) (regions : list string)
      (sql loc : option string) (ql sl : Z) :
  falsy sql = true ->
  logs_only not_dry_run_event
            (check_free_tier_allowance clock client project_id regions
               sql loc ql sl).
Proof.
  intros Hsql. unfold check_free_tier_allowance.
  apply logs_only_bind.
  { apply (logs_only_weaken metadata_event);
      [apply metadata_event_not_dry_run | apply sum_query_bytes_billed_logs]. }
  intros used_query. apply logs_only_bind.
  { apply sum_storage_bytes_logs_not_dry_run. }
  intros used_storage. apply logs_only_bind.
  { unfold planned_query_bytes. rewrite Hsql. apply logs_only_ret. }
  intros planned.
  destruct (_ >? _); [apply logs_only_raise|].
  destruct (_ >? _); [apply logs_only_raise | apply logs_only_ret].
Qed.

Lemma check_free_tier_allowance_planned
      (project_id : option string) (regions : list string)
      (sql loc : option string) (ql sl : Z)
      (st st' : State W Job) (stats : list (string * Z)) :
  falsy sql = true ->
  check_free_tier_allowance clock client project_id regions sql loc ql sl
    st = (Ok stats, st') ->
  getitem stats "planned_query_bytes" = Ok 0.
Proof.
  intros Hsql. unfold check_free_tier_allowance, bind, planned_query_bytes.
  rewrite Hsql.
  destruct (_sum_query_bytes_billed _ _ _ _) as [[uq|?] st1];
    [|discriminate].
  destruct (_sum_storage_bytes _ _ _ _) as [[us|?] st2]; [|discriminate].
  unfold ret, raise.
  destruct (_ >? _); [discriminate|].
  destruct (_ >? _); [discriminate|].
  intros [= <- <-]. reflexivity.
Qed.



(** *** The project that the calls name *)










(** *** The storage probe *)

Lemma sum_storage_bytes_empty (project_id : option string)
      (st : State W Job) :
  _sum_storage_bytes client [] project_id st = (Ok 0, st).
Proof. reflexivity. Qed.

Lemma sum_query_bytes_billed_empty (st : State W Job) :
  valid_datetime (clock (world st)) = true ->
  year (clock (world st)) < 9999 \/ month (clock (world st)) < 12 ->
  _sum_query_bytes_billed clock client [] st = (Ok 0, st).
Proof.
  intros Hv Hlast. unfold _sum_query_bytes_billed, bind, _month_bounds_utc.
  now rewrite (month_bounds_of_spec _ Hv Hlast).
Qed.

(** C5 (amended): with an empty region list [_sum_storage_bytes] returns
    exactly 0 and makes no call; so does [_sum_query_bytes_billed] at
    every current date before December 9999; and
    [check_free_tier_allowance] then decides on a usage of 0 in both
    dimensions, so it returns the snapshot whenever the estimate alone
    fits the query ceiling and the storage ceiling is not negative. *)
Theorem empty_region_list_yields_zero (st : State W Job) :
  (forall project_id,
      _sum_storage_bytes client [] project_id st = (Ok 0, st))
  /\ (valid_datetime (clock (world st)) = true ->
      year (clock (world st)) < 9999 \/ month (clock (world st)) < 12 ->
      _sum_query_bytes_billed clock client [] st = (Ok 0, st)
      /\ forall project_id sql loc ql sl planned st',
          planned_query_bytes client sql loc st = (Ok planned, st') ->
          planned <= ql -> 0 <= sl ->
          check_free_tier_allowance clock client project_id [] sql loc
            ql sl st
          = (Ok [("used_query_bytes", 0);
                 ("planned_query_bytes", planned);
                 ("query_limit_bytes", ql);
                 ("used_storage_bytes", 0);
                 ("storage_limit_bytes", sl)],
             st')).
Proof.
  split; [intros; apply sum_storage_bytes_empty|].
  intros Hv Hlast.
  pose proof (sum_query_bytes_billed_empty st Hv Hlast) as Hq.
  split; [exact Hq|].
  intros project_id sql loc ql sl planned st' Hp Hql Hsl.
  rewrite (check_free_tier_allowance_run project_id [] sql loc ql sl
             st st st st' 0 0 planned Hq
             (sum_storage_bytes_empty _ _) Hp).
  destruct (Z.gtb_spec (0 + planned) ql); [lia|].
  destruct (Z.gtb_spec 0 sl); [lia|]. reflexivity.
Qed.

(** *** The storage probe, region by region *)

Lemma for_each_shift {A : Type} (body : A -> Z -> M Z) (t : Z) :
  (forall x a (st : State W Job),
      body x (t + a) st = add_to t (body x a st)) ->
  forall (l : list A) (a : Z) (st : State W Job),
    for_each body l (t + a) st = add_to t (for_each body l a st).
Proof.
  intros Hb. induction l as [|x l IH]; intros a st; [reflexivity|].
  cbn [for_each]. unfold bind. rewrite Hb.
  destruct (body x a st) as [[n|e] s]; cbn [add_to]; [apply IH | reflexivity].
Qed.

Lemma for_listing_shift (body : DatasetListItem -> Z -> M Z) (t : Z) :
  (forall d a (st : State W Job),
      body d (t + a) st = add_to t (body d a st)) ->
  forall (l : Listing W) (a : Z) (st : State W Job),
    for_listing body l (t + a) st = add_to t (for_listing body l a st).
Proof.
  intros Hb. induction l as [|e|d after rest IH]; intros a st;
    [reflexivity | reflexivity |].
  cbn [for_listing]. unfold bind. rewrite Hb.
  destruct (body d a st) as [[n|e] s]; cbn [add_to]; [apply IH | reflexivity].
Qed.

Lemma storage_dataset_shift (project_id location : string)
      (ds : DatasetListItem) (t a : Z) (st : State W Job) :
  storage_dataset client project_id location ds (t + a) st
  = add_to t (storage_dataset client project_id location ds a st).
Proof.
  unfold storage_dataset, try_except, bind at 1 4.
  destruct (client_get_dataset client (reference ds) st)
    as [[ds_ref|e] st1]; [|reflexivity].
  destruct (negb _); [reflexivity|].
  unfold bind at 1 3.
  destruct (client_query client _ st1) as [[job|e] st2]; [|reflexivity].
  unfold bind.
  destruct (first_row_int client job "logical_bytes" st2) as [[n|e] st3];
    [|reflexivity].
  unfold ret. cbn [add_to]. now rewrite Z.add_assoc.
Qed.

Lemma storage_region_shift (project_id region : string) (t a : Z)
      (st : State W Job) :
  storage_region client project_id region (t + a) st
  = add_to t (storage_region client project_id region a st).
Proof.
  unfold storage_region.
  destruct (storage_fast_path client project_id region _ st)
    as [[n|e] st1].
  - cbn [add_to]. now rewrite Z.add_assoc.
  - unfold storage_fallback, bind.
    destruct (client_list_datasets client project_id st1)
      as [[datasets|e'] st2]; [|reflexivity].
    apply for_listing_shift. intros ds b s. apply storage_dataset_shift.
Qed.

(** The probe on a list of regions: its first region from 0, then the
    others from the state that the first one left. *)
Lemma sum_storage_bytes_cons (project_id : option string) (region : string)
      (rest : list string) (st : State W Job) :
  _sum_storage_bytes client (region :: rest) project_id st
  = match storage_region client (resolve_project client project_id)
            region 0 st with
    | (Ok n, st1) =>
        add_to n (_sum_storage_bytes client rest project_id st1)
    | (Raise e, st1) => (Raise e, st1)
    end.
Proof.
  unfold _sum_storage_bytes. cbn [for_each]. unfold bind.
  destruct (storage_region client _ region 0 st) as [[n|e] st1];
    [|reflexivity].
  rewrite <- (Z.add_0_r n) at 1.
  apply for_each_shift. intros r a s. apply storage_region_shift.
Qed.

(** One dataset in the loop of the fallback, case by case. *)
Lemma storage_dataset_cases (project_id location : string)
      (ds : DatasetListItem) (t : Z) (s : State W Job) :
  match client_get_dataset client (reference ds) s with
  | (Raise _, s1) =>
      storage_dataset client project_id location ds t s = (Ok t, s1)
  | (Ok ds_ref, s1) =>
      if String.eqb (upper (or_empty (ds_location ds_ref))) location then
        match client_query client
                (mkCall (dataset_storage_sql project_id
                           (dataset_id ds_ref))
                   None (ds_location ds_ref)) s1 with
        | (Raise _, s2) =>
            storage_dataset client project_id location ds t s = (Ok t, s2)
        | (Ok job, s2) =>
            match first_row_int client job "logical_bytes" s2 with
            | (Raise _, s3) =>
                storage_dataset client project_id location ds t s
                = (Ok t, s3)
            | (Ok n, s3) =>
                storage_dataset client project_id location ds t s
                = (Ok (t + n), s3)
            end
        end
      else storage_dataset client project_id location ds t s = (Ok t, s1)
  end.
Proof.
  destruct (client_get_dataset client (reference ds) s)
    as [[ds_ref|e] s1] eqn:Eg.
  - destruct (String.eqb _ location) eqn:El.
    + destruct (client_query client _ s1) as [[job|e] s2] eqn:Eq.
      * destruct (first_row_int client job "logical_bytes" s2)
          as [[n|e] s3] eqn:Er;
          unfold storage_dataset, try_except, bind;
          rewrite Eg; cbn beta iota; rewrite El; cbn [negb];
          rewrite Eq; cbn beta iota; rewrite Er; reflexivity.
      * unfold storage_dataset, try_except, bind.
        rewrite Eg. cbn beta iota. rewrite El. cbn [negb].
        rewrite Eq. reflexivity.
    + unfold storage_dataset, try_except, bind.
      rewrite Eg. cbn beta iota. rewrite El. reflexivity.
  - unfold storage_dataset, try_except, bind. now rewrite Eg.
Qed.

Lemma storage_dataset_ok (project_id location : string)
      (ds : DatasetListItem) (t : Z) (s : State W Job) :
  exists t' s',
    storage_dataset client project_id location ds t s = (Ok t', s').
Proof.
  pose proof (storage_dataset_cases project_id location ds t s) as H.
  destruct (client_get_dataset client (reference ds) s)
    as [[ds_ref|e] s1]; [|eauto].
  destruct (String.eqb _ location); [|eauto].
  destruct (client_query client _ s1) as [[job|e] s2]; [|eauto].
  destruct (first_row_int client job "logical_bytes" s2)
    as [[n|e] s3]; eauto.
Qed.

(** The loop over the datasets raises only what the listing raises. *)
Lemma for_listing_storage_dataset_raise (project_id location : string)
      (l : Listing W) :
  forall (total : Z) (st st' : State W Job) (e : Exc),
    for_listing (storage_dataset client project_id location) l total st
    = (Raise e, st') ->
    listing_fails l e.
Proof.
  induction l as [|e0|d after rest IH]; intros total st st' e.
  - discriminate.
  - intros [= <- _]. constructor.
  - cbn [for_listing]. unfold bind.
    destruct (storage_dataset_ok project_id location d total st)
      as (t' & s' & E).
    rewrite E. intros H. apply fails_later with (w := world s').
    exact (IH _ _ _ _ _ H).
Qed.

(** A listing that cannot fail gives a total. *)
Lemma for_listing_storage_dataset_ok (project_id location : string)
      (l : Listing W) (total : Z) (st : State W Job) :
  (forall e, ~ listing_fails l e) ->
  exists total' st',
    for_listing (storage_dataset client project_id location) l total st
    = (Ok total', st').
Proof.
  intros Hl.
  destruct (for_listing (storage_dataset client project_id location)
              l total st) as [[t|e] s] eqn:E; [eauto|].
  destruct (Hl e (for_listing_storage_dataset_raise _ _ _ _ _ _ _ E)).
Qed.

Lemma storage_fallback_calls (project_id location : string) (total : Z)
      (st st' : State W Job) (r : Res Z) :
  storage_fallback client project_id location total st = (r, st') ->
  exists evs,
    calls st' = (calls st ++ EvListDatasets project_id :: evs)%list
    /\ forallb (dataset_event location) evs = true.
Proof.
  unfold storage_fallback, bind, client_list_datasets.
  destruct (list_datasets client project_id (world st)) as [l w].
  intros H.
  destruct (logs_only_for_listing (dataset_event location) _
              (storage_dataset_logs project_id location) l total _ _ _ H)
    as (evs & E & F).
  exists evs. split; [|exact F]. rewrite E. cbn [calls].
  now rewrite <- app_assoc.
Qed.

Lemma dataset_events_no_list_datasets (location : string)
      (evs : list (Event Job)) :
  forallb (dataset_event location) evs = true ->
  filter is_list_datasets evs = [].
Proof.
  induction evs as [|ev rest IH]; simpl; [reflexivity|].
  intros H. apply andb_true_iff in H as [Hev Hrest].
  destruct ev; simpl in *; try discriminate; auto.
Qed.

(** C8: [_sum_storage_bytes] on a list of regions that begins with
    [region].  When the project-wide query of the region succeeds, its
    answer is added to what the other regions give from the state it
    left, and only that query and the reading of its rows were called:
    the fallback is not run.  When it fails, with whatever exception, the
    fallback runs once, from a total of 0 and on the state the failure
    left, and the other regions follow it; the fallback lists the
    datasets once and then calls only [get_dataset], queries without job
    configuration at a location that upper-cases to the canonical
    location of the region, and the reading of their rows; it is the loop
    over the listing; one dataset of the loop never raises: it adds the
    answer of its own query when [get_dataset] gave a location that
    upper-cases to the canonical location and the query and its first row
    could be read, and leaves the total as it is on a mismatch and on any
    exception; so the fallback raises only what the listing itself
    raises, and gives a total when the listing cannot fail. *)
Theorem sum_storage_bytes_fallback
        (project_id : option string) (region : string)
        (rest : list string) (st st1 : State W Job) :
  (forall n,
      storage_fast_path client (resolve_project client project_id) region
        (_region_to_location region) st = (Ok n, st1) ->
      _sum_storage_bytes client (region :: rest) project_id st
      = add_to n (_sum_storage_bytes client rest project_id st1)
      /\ exists evs,
          calls st1 = (calls st ++ evs)%list
          /\ forallb metadata_event evs = true)
  /\ (forall e,
         storage_fast_path client (resolve_project client project_id)
           region (_region_to_location region) st = (Raise e, st1) ->
         _sum_storage_bytes client (region :: rest) project_id st
         = match storage_fallback client
                   (resolve_project client project_id)
                   (_region_to_location region) 0 st1 with
           | (Ok total, st2) =>
               add_to total
                      (_sum_storage_bytes client rest project_id st2)
           | (Raise e', st2) => (Raise e', st2)
           end)
  /\ (forall pid total s r s',
         storage_fallback client pid (_region_to_location region) total s
         = (r, s') ->
         (exists evs,
             calls s' = (calls s ++ EvListDatasets pid :: evs)%list
             /\ forallb (dataset_event (_region_to_location region)) evs
                = true
             /\ List.length
                  (filter is_list_datasets (EvListDatasets pid :: evs))
                = 1%nat)
         /\ (forall e',
                r = Raise e' ->
                listing_fails (fst (list_datasets client pid (world s)))
                              e'))
  /\ (forall pid total s,
         storage_fallback client pid (_region_to_location region) total s
         = for_listing
             (storage_dataset client pid (_region_to_location region))
             (fst (list_datasets client pid (world s))) total
             (mkState (snd (list_datasets client pid (world s)))
                      (calls s ++ [EvListDatasets pid]) (stdout s)))
  /\ (forall pid total s,
         (forall e',
             ~ listing_fails (fst (list_datasets client pid (world s)))
                             e') ->
         exists total' s',
           storage_fallback client pid (_region_to_location region)
             total s = (Ok total', s'))
  /\ (forall pid ds t s,
         match client_get_dataset client (reference ds) s with
         | (Raise _, s1) =>
             storage_dataset client pid (_region_to_location region)
               ds t s = (Ok t, s1)
         | (Ok ds_ref, s1) =>
             if String.eqb (upper (or_empty (ds_location ds_ref)))
                           (_region_to_location region)
             then
               match client_query client
                       (mkCall (dataset_storage_sql pid
                                  (dataset_id ds_ref))
                          None (ds_location ds_ref)) s1 with
               | (Raise _, s2) =>
                   storage_dataset client pid
                     (_region_to_location region) ds t s = (Ok t, s2)
               | (Ok job, s2) =>
                   match first_row_int client job "logical_bytes" s2 with
                   | (Raise _, s3) =>
                       storage_dataset client pid
                         (_region_to_location region) ds t s = (Ok t, s3)
                   | (Ok n, s3) =>
                       storage_dataset client pid
                         (_region_to_location region) ds t s
                       = (Ok (t + n), s3)
                   end
               end
             else
               storage_dataset client pid (_region_to_location region)
                 ds t s = (Ok t, s1)
         end).
Proof.
  assert (Hloop : forall pid total s,
             storage_fallback client pid (_region_to_location region)
               total s
             = for_listing
                 (storage_dataset client pid (_region_to_location region))
                 (fst (list_datasets client pid (world s))) total
                 (mkState (snd (list_datasets client pid (world s)))
                          (calls s ++ [EvListDatasets pid]) (stdout s))).
  { intros pid total s. unfold storage_fallback, bind, client_list_datasets.
    now destruct (list_datasets client pid (world s)). }
  split; [|split; [|split; [|split; [|split]]]].
  - intros n H. rewrite sum_storage_bytes_cons. unfold storage_region.
    rewrite H. rewrite Z.add_0_l.
    split; [reflexivity|]. exact (storage_fast_path_logs _ _ _ _ _ _ H).
  - intros e H. rewrite sum_storage_bytes_cons. unfold storage_region.
    now rewrite H.
  - intros pid total s r s' Hf. split.
    + destruct (storage_fallback_calls _ _ _ _ _ _ Hf) as (evs & E & F).
      exists evs. split; [exact E|]. split; [exact F|].
      simpl. now rewrite (dataset_events_no_list_datasets _ _ F).
    + intros e' ->. rewrite Hloop in Hf.
      exact (for_listing_storage_dataset_raise _ _ _ _ _ _ _ Hf).
  - exact Hloop.
  - intros pid total s Hl. rewrite Hloop.
    now apply for_listing_storage_dataset_ok.
  - intros pid ds t s. apply storage_dataset_cases.
Qed.

End GuardProperties.
(** ** The properties on the scripted client *)

(** Runs a closed computation of the model. *)
Ltac run := vm_compute; reflexivity.

Lemma check_free_tier_allowance_succeeds_iff_witness :
  (exists stats st',
      check_free_tier_allowance Scripted.clock Scripted.client None
        DEFAULT_REGIONS (Some "SELECT 1") None
        QUERY_LIMIT_BYTES STORAGE_LIMIT_BYTES
        (Scripted.initial Scripted.quiet) = (Ok stats, st'))
  <-> 0 + 1000 <= QUERY_LIMIT_BYTES
      /\ 10 * Scripted.GiB <= STORAGE_LIMIT_BYTES.
Proof.
  pose (st := Scripted.initial Scripted.quiet).
  pose (st1 := Scripted.after
                 (_sum_query_bytes_billed Scripted.clock Scripted.client
                    DEFAULT_REGIONS) st).
  pose (st2 := Scripted.after
                 (_sum_storage_bytes Scripted.client DEFAULT_REGIONS None)
                 st1).
  pose (st3 := Scripted.after
                 (planned_query_bytes Scripted.client (Some "SELECT 1") None)
                 st2).
  exact (proj1 (check_free_tier_allowance_succeeds_iff Scripted.clock
                  Scripted.client None DEFAULT_REGIONS (Some "SELECT 1") None
                  QUERY_LIMIT_BYTES STORAGE_LIMIT_BYTES st st1 st2 st3
                  0 (10 * Scripted.GiB) 1000
                  ltac:(run) ltac:(run) ltac:(run))).
Defined.

(** The value of a division that is known to be in range. *)
Ltac quotient a b :=
  let v := eval vm_compute in (truediv a b) in
  match v with
  | Ok ?q => exact q
  end.










(** C5, as stated, fails in December 9999: the bounds of the month are
    computed before the loop over the regions, and their computation
    raises there, empty list or not. *)
Lemma sum_query_bytes_billed_empty_last_month_raises :
  valid_datetime (Scripted.clock Scripted.last_month) = true
  /\ _sum_query_bytes_billed Scripted.clock Scripted.client []
       (Scripted.initial Scripted.last_month)
     = (Raise (OverflowError "date value out of range"),
        Scripted.initial Scripted.last_month).
Proof. split; reflexivity. Qed.

Lemma empty_region_list_yields_zero_witness :
  _sum_query_bytes_billed Scripted.clock Scripted.client []
    (Scripted.initial Scripted.quiet)
  = (Ok 0, Scripted.initial Scripted.quiet)
  /\ check_free_tier_allowance Scripted.clock Scripted.client None []
       None None QUERY_LIMIT_BYTES STORAGE_LIMIT_BYTES
       (Scripted.initial Scripted.quiet)
     = (Ok [("used_query_bytes", 0);
            ("planned_query_bytes", 0);
            ("query_limit_bytes", QUERY_LIMIT_BYTES);
            ("used_storage_bytes", 0);
            ("storage_limit_bytes", STORAGE_LIMIT_BYTES)],
        Scripted.initial Scripted.quiet).
Proof.
  destruct (proj2 (empty_region_list_yields_zero Scripted.clock
                     Scripted.client (Scripted.initial Scripted.quiet))
                  eq_refl (or_introl eq_refl)) as [Hq Hcheck].
  split; [exact Hq|].
  apply Hcheck; [reflexivity | discriminate | discriminate].
Defined.

(** A region whose project-wide storage view fails: the fallback lists
    the datasets once and adds up the two datasets in the EU that answer
    (100 + 20), skipping the one in the US, the one whose query fails and
    the one without a location. *)
Lemma sum_storage_bytes_fallback_witness :
  exists st',
    _sum_storage_bytes Scripted.client ["region-eu"] None
      (Scripted.initial Scripted.no_project_view)
    = (Ok 120, st')
    /\ List.length (filter is_list_datasets (calls st')) = 1%nat.
Proof.
  pose (st := Scripted.initial Scripted.no_project_view).
  pose (st1 := Scripted.after
                 (storage_fast_path Scripted.client
                    (resolve_project Scripted.client None) "region-eu"
                    (_region_to_location "region-eu")) st).
  pose proof (proj1 (proj2 (sum_storage_bytes_fallback Scripted.client
                              None "region-eu" [] st st1))
                Scripted.Forbidden ltac:(run)) as Hsum.
  pose (st2 := Scripted.after
                 (storage_fallback Scripted.client
                    (resolve_project Scripted.client None)
                    (_region_to_location "region-eu") 0) st1).
  assert (Ef : storage_fallback Scripted.client
                 (resolve_project Scripted.client None)
                 (_region_to_location "region-eu") 0 st1 = (Ok 120, st2))
    by run.
  rewrite Ef in Hsum.
  exists st2. split; [exact Hsum | run].
Defined.
(** * Further properties of the guard *)

(** ** [_region_to_location] *)

Lemma rstrip_idempotent (s : string) : rstrip (rstrip s) = rstrip s.
Proof.
  induction s as [|c r IH]; simpl; [reflexivity|].
  destruct (rstrip r) as [|c' r'] eqn:E.
  - destruct (is_space c) eqn:Ec; simpl; [reflexivity | now rewrite Ec].
  - simpl. simpl in IH. now rewrite IH.
Qed.

Lemma lstrip_head (s : string) :
  lstrip s = EmptyString
  \/ exists c r, lstrip s = String c r /\ is_space c = false.
Proof.
  induction s as [|c r IH]; simpl; [now left|].
  destruct (is_space c) eqn:Ec; [exact IH|]. right. eauto.
Qed.

Lemma rstrip_head (c : ascii) (r : string) :
  is_space c = false -> exists r', rstrip (String c r) = String c r'.
Proof.
  intros Hc. simpl. destruct (rstrip r); [rewrite Hc|]; eauto.
Qed.

Lemma strip_idempotent (s : string) : strip (strip s) = strip s.
Proof.
  unfold strip.
  destruct (lstrip_head s) as [E|(c & r & E & Hc)]; rewrite E.
  - reflexivity.
  - destruct (rstrip_head c r Hc) as (r' & E').
    rewrite E'. cbn [lstrip]. rewrite Hc, <- E'. apply rstrip_idempotent.
Qed.

Lemma startswith_upper_region (s : string) :
  startswith (upper s) "region-" = false.
Proof.
  destruct s as [|c r]; [reflexivity|].
  cbn [upper startswith].
  destruct c as [[] [] [] [] [] [] [] []]; reflexivity.
Qed.

Lemma str_in_EU_US_no_prefix (r : string) :
  str_in (upper r) ["EU"; "US"] = true -> startswith r "region-" = false.
Proof.
  unfold str_in. cbn [existsb]. rewrite orb_false_r, orb_true_iff.
  intros H.
  assert (Hlen : String.length (upper r) = 2%nat)
    by (destruct H as [H|H]; apply String.eqb_eq in H; now rewrite H).
  destruct r as [|a [|b [|c r]]]; try discriminate Hlen.
  cbn [startswith]. now rewrite !andb_false_r.
Qed.

(** X1: the test for "EU" and "US" never changes the result: the
    normalization is the upper case of the trimmed input, without its
    prefix "region-" when it has one (in lower case), and a trimmed input
    with the prefix is the prefix followed by what is kept. *)
Theorem region_to_location_is_upper_without_prefix (s : string) :
  _region_to_location s
  = upper (if startswith (strip s) "region-" then split_second (strip s)
           else strip s)
  /\ (startswith (strip s) "region-" = true ->
      strip s = "region-" ++ split_second (strip s)).
Proof.
  split.
  - unfold _region_to_location.
    destruct (str_in (upper (strip s)) ["EU"; "US"]) eqn:E.
    + now rewrite (str_in_EU_US_no_prefix _ E).
    + now destruct (startswith (strip s) "region-").
  - intros H. destruct (split1_region_prefix _ H) as (rest & E & _).
    rewrite E at 2. rewrite split_second_region_prefix. exact E.
Qed.

Lemma region_to_location_is_upper_without_prefix_witness :
  strip "  region-europe-west1 "
  = "region-" ++ split_second (strip "  region-europe-west1 ").
Proof.
  apply (proj2 (region_to_location_is_upper_without_prefix
                  "  region-europe-west1 ")).
  reflexivity.
Defined.

(** X2: normalizing a result again only trims it, and changes nothing
    when the trimmed input had no prefix "region-"; with the prefix, white
    space after it survives the first pass ("region- eu" gives " EU"). *)
Theorem region_to_location_twice (s : string) :
  _region_to_location (_region_to_location s)
  = strip (_region_to_location s)
  /\ (startswith (strip s) "region-" = false ->
      _region_to_location (_region_to_location s) = _region_to_location s)
  /\ _region_to_location "region- eu" = " EU".
Proof.
  assert (Htwice : forall u, upper u = u ->
                             _region_to_location u = strip u).
  { intros u Hu.
    assert (Hs : upper (strip u) = strip u)
      by (now rewrite <- strip_upper, Hu).
    assert (Hp : startswith (strip u) "region-" = false)
      by (rewrite <- Hs; apply startswith_upper_region).
    unfold _region_to_location. rewrite Hs, Hp.
    now destruct (str_in _ _). }
  split; [|split].
  - apply Htwice, region_to_location_upper.
  - intros Hp. rewrite (Htwice _ (region_to_location_upper s)).
    unfold _region_to_location. rewrite Hp.
    assert (E : (if str_in (upper (strip s)) ["EU"; "US"]
                 then upper (strip s) else upper (strip s))
                = upper (strip s)) by (now destruct (str_in _ _)).
    rewrite E, <- strip_upper, strip_idempotent. reflexivity.
  - reflexivity.
Qed.

Lemma region_to_location_twice_witness :
  _region_to_location (_region_to_location " eu ")
  = _region_to_location " eu ".
Proof.
  apply (proj1 (proj2 (region_to_location_twice " eu "))). reflexivity.
Defined.

(** ** [_month_bounds_utc] *)

Lemma valid_datetime_fields (d : datetime) :
  valid_datetime d = true ->
  1 <= day d /\ 0 <= hour d /\ 0 <= minute d /\ 0 <= second d
  /\ 0 <= microsecond d.
Proof.
  unfold valid_datetime, make_datetime, check_date_fields, check_time_fields.
  repeat match goal with
         | |- context [negb (?a && ?b)] =>
             let E := fresh "E" in
             destruct (a && b) eqn:E; cbn [negb];
             [apply andb_true_iff in E as [? ?] | discriminate]
         end.
  intros _.
  repeat match goal with
         | H : (_ <=? _) = true |- _ => apply Z.leb_le in H
         end.
  lia.
Qed.

Lemma lex_ltb_month_start (y m d h mi s us : Z) :
  1 <= d -> 0 <= h -> 0 <= mi -> 0 <= s -> 0 <= us ->
  lex_ltb [y; m; d; h; mi; s; us] [y; m; 1; 0; 0; 0; 0] = false.
Proof.
  intros Hd Hh Hmi Hs Hus. cbn [lex_ltb].
  rewrite !Z.ltb_irrefl, !Z.eqb_refl.
  rewrite (proj2 (Z.ltb_ge d 1)), (proj2 (Z.ltb_ge h 0)),
    (proj2 (Z.ltb_ge mi 0)), (proj2 (Z.ltb_ge s 0)),
    (proj2 (Z.ltb_ge us 0)) by lia.
  cbn [orb andb]. now rewrite !andb_false_r.
Qed.

Lemma lex_ltb_next_month (y m d h mi s us : Z) :
  1 <= m <= 12 ->
  datetime_ltb (mkDatetime y m d h mi s us) (first_of_next_month y m) = true.
Proof.
  intros Hm. unfold first_of_next_month, datetime_ltb, to_fields.
  destruct (Z.eqb_spec m 12); cbn [lex_ltb year month day hour minute second
                                   microsecond].
  - rewrite (proj2 (Z.ltb_lt y (y + 1))) by lia. reflexivity.
  - rewrite Z.eqb_refl, (proj2 (Z.ltb_lt m (m + 1))) by lia.
    now rewrite orb_true_r.
Qed.

(** X3: at every current date before December 9999 the current instant
    lies in the window that [_month_bounds_utc] returns: it is not before
    start and it is before end. *)
Theorem month_bounds_contain_now
        {W Job : Type} (clock : W -> datetime) (st : State W Job) :
  valid_datetime (clock (world st)) = true ->
  year (clock (world st)) < 9999 \/ month (clock (world st)) < 12 ->
  exists start end_ : datetime,
    _month_bounds_utc clock st = (Ok (start, end_), st)
    /\ datetime_ltb (clock (world st)) start = false
    /\ datetime_ltb (clock (world st)) end_ = true.
Proof.
  intros Hv Hlast. pose proof (month_bounds_of_spec _ Hv Hlast) as E.
  destruct (valid_datetime_range _ Hv) as [_ Hm].
  destruct (valid_datetime_fields _ Hv) as (Hd & Hh & Hmi & Hs & Hus).
  eexists _, _. unfold _month_bounds_utc. rewrite E.
  split; [reflexivity|]. destruct (clock (world st)) as [y m d h mi s us].
  cbn [year month day hour minute second microsecond] in *. split.
  - now apply lex_ltb_month_start.
  - now apply lex_ltb_next_month.
Qed.

Lemma month_bounds_contain_now_witness :
  exists start end_ : datetime,
    _month_bounds_utc Scripted.clock (Scripted.initial Scripted.quiet)
    = (Ok (start, end_), Scripted.initial Scripted.quiet)
    /\ datetime_ltb Scripted.noon start = false
    /\ datetime_ltb Scripted.noon end_ = true.
Proof.
  apply (month_bounds_contain_now Scripted.clock
           (Scripted.initial Scripted.quiet)).
  - reflexivity.
  - left. reflexivity.
Defined.

Lemma days_before_year_succ (y : Z) :
  days_before_year (y + 1)
  = days_before_year y + 365 + (if is_leap y then 1 else 0).
Proof.
  unfold days_before_year, is_leap. cbv zeta.
  replace (y + 1 - 1) with y by lia.
  destruct (Z.eqb_spec (y mod 4) 0), (Z.eqb_spec (y mod 100) 0),
    (Z.eqb_spec (y mod 400) 0); cbn [negb orb andb];
    Z.div_mod_to_equations; lia.
Qed.

Lemma month_length_by_ordinals (y m : Z) :
  1 <= m <= 12 ->
  toordinal (first_of_next_month y m) - toordinal (mkDatetime y m 1 0 0 0 0)
  = days_in_month y m.
Proof.
  intros Hm. unfold first_of_next_month, toordinal, ymd2ord.
  assert (Hc : m = 1 \/ m = 2 \/ m = 3 \/ m = 4 \/ m = 5 \/ m = 6 \/ m = 7
               \/ m = 8 \/ m = 9 \/ m = 10 \/ m = 11 \/ m = 12) by lia.
  repeat (destruct Hc as [->|Hc]); [..|subst m];
    cbn [Z.eqb Pos.eqb year month day];
    unfold days_before_month, days_in_month;
    rewrite ?days_before_year_succ;
    destruct (is_leap y); simpl; lia.
Qed.

(** X4: at every current date before December 9999 the window spans the
    current month exactly: end is as many days after start as the month
    has, between 28 and 31. *)
Theorem month_bounds_span_the_month
        {W Job : Type} (clock : W -> datetime) (st : State W Job) :
  valid_datetime (clock (world st)) = true ->
  year (clock (world st)) < 9999 \/ month (clock (world st)) < 12 ->
  exists start end_ : datetime,
    _month_bounds_utc clock st = (Ok (start, end_), st)
    /\ toordinal end_ - toordinal start
       = days_in_month (year (clock (world st))) (month (clock (world st)))
    /\ 28 <= toordinal end_ - toordinal start <= 31.
Proof.
  intros Hv Hlast. pose proof (month_bounds_of_spec _ Hv Hlast) as E.
  destruct (valid_datetime_range _ Hv) as [_ Hm].
  eexists _, _. unfold _month_bounds_utc. rewrite E.
  split; [reflexivity|].
  rewrite (month_length_by_ordinals _ _ Hm). split; [reflexivity|].
  pose proof (days_in_month_ge_28 (year (clock (world st))) _ Hm).
  split; [assumption|]. unfold days_in_month.
  destruct (_ && _); [lia|].
  assert (Hc : forall m, 1 <= m <= 12 -> DAYS_IN_MONTH m <= 31).
  { intros m H0.
    assert (Hc : m = 1 \/ m = 2 \/ m = 3 \/ m = 4 \/ m = 5 \/ m = 6
                 \/ m = 7 \/ m = 8 \/ m = 9 \/ m = 10 \/ m = 11 \/ m = 12)
      by lia.
    repeat (destruct Hc as [->|Hc]); [..|subst m]; simpl; lia. }
  now apply Hc.
Qed.

Lemma month_bounds_span_the_month_witness :
  exists start end_ : datetime,
    _month_bounds_utc Scripted.clock (Scripted.initial Scripted.quiet)
    = (Ok (start, end_), Scripted.initial Scripted.quiet)
    /\ toordinal end_ - toordinal start = 29
    /\ 28 <= toordinal end_ - toordinal start <= 31.
Proof.
  apply (month_bounds_span_the_month Scripted.clock
           (Scripted.initial Scripted.quiet)).
  - reflexivity.
  - left. reflexivity.
Defined.

(** ** The probes *)
Section ProbeProperties.

Context {W Job DataFrame : Type}.
Variable clock : W -> datetime.
Variable client : Client W Job DataFrame.






Lemma for_each_app {A : Type} (body : A -> Z -> M Z) (l1 l2 : list A) :
  forall (total : Z) (st : State W Job),
    for_each body (l1 ++ l2) total st
    = bind (for_each body l1 total) (for_each body l2) st.
Proof.
  induction l1 as [|x l1 IH]; intros total st; [reflexivity|].
  cbn [app for_each]. unfold bind.
  destruct (body x total st) as [[n|e] s]; [|reflexivity].
  rewrite IH. reflexivity.
Qed.

(** X6: the regions are probed one after the other and their storage adds
    up: the total of a list of regions put end to end is the total of the
    first list plus the total of the second, probed from the state the
    first probe left; a failure in the first list is the failure of the
    whole. *)
Theorem sum_storage_bytes_app
        (regions1 regions2 : list string) (project_id : option string)
        (st : State W Job) :
  _sum_storage_bytes client (regions1 ++ regions2) project_id st
  = match _sum_storage_bytes client regions1 project_id st with
    | (Ok total1, st1) =>
        add_to total1 (_sum_storage_bytes client regions2 project_id st1)
    | (Raise e, st1) => (Raise e, st1)
    end.
Proof.
  unfold _sum_storage_bytes. rewrite for_each_app. unfold bind.
  destruct (for_each _ regions1 0 st) as [[total1|e] st1]; [|reflexivity].
  rewrite <- (Z.add_0_r total1) at 1.
  apply for_each_shift. intros region a s. apply storage_region_shift.
Qed.

(** X7: the fallback is no net for its own listing: when the
    project-wide query of a region fails and the listing of the datasets
    fails as well, [_sum_storage_bytes] raises the exception of the
    listing without trying the regions that follow.  A listing that fails
    at once leaves the call [list_datasets] as the last one; a listing
    that fails after its first dataset fails after the calls made for
    that dataset; and whenever the fallback raises, its exception is one
    that the listing raises and the calls since the failure of the
    project-wide query are [list_datasets] and calls of the loop over
    the datasets. *)
Theorem sum_storage_bytes_listing_failure
        (project_id : option string) (region : string)
        (rest : list string) (st st1 : State W Job) (e : Exc) :
  storage_fast_path client (resolve_project client project_id) region
    (_region_to_location region) st = (Raise e, st1) ->
  (forall e' w,
      list_datasets client (resolve_project client project_id) (world st1)
      = (LFail e', w) ->
      _sum_storage_bytes client (region :: rest) project_id st
      = (Raise e',
         mkState w
           (calls st1
              ++ [EvListDatasets (resolve_project client project_id)])
           (stdout st1)))
  /\ (forall d after more w total s2 e',
         list_datasets client (resolve_project client project_id)
           (world st1) = (LItem d after more, w) ->
         storage_dataset client (resolve_project client project_id)
           (_region_to_location region) d 0
           (mkState w
              (calls st1
                 ++ [EvListDatasets (resolve_project client project_id)])
              (stdout st1)) = (Ok total, s2) ->
         more (world s2) = LFail e' ->
         _sum_storage_bytes client (region :: rest) project_id st
         = (Raise e', mkState (after (world s2)) (calls s2) (stdout s2)))
  /\ (forall e' st2,
         storage_fallback client (resolve_project client project_id)
           (_region_to_location region) 0 st1 = (Raise e', st2) ->
         _sum_storage_bytes client (region :: rest) project_id st
         = (Raise e', st2)
         /\ listing_fails
              (fst (list_datasets client
                      (resolve_project client project_id) (world st1)))
              e'
         /\ exists evs,
             calls st2
             = (calls st1
                  ++ EvListDatasets (resolve_project client project_id)
                  :: evs)%list
             /\ forallb (dataset_event (_region_to_location region)) evs
                = true).
Proof.
  intros Hfast.
  assert (Hsum : _sum_storage_bytes client (region :: rest) project_id st
                 = match storage_fallback client
                           (resolve_project client project_id)
                           (_region_to_location region) 0 st1 with
                   | (Ok total, st2) =>
                       add_to total
                         (_sum_storage_bytes client rest project_id st2)
                   | (Raise e', st2) => (Raise e', st2)
                   end).
  { rewrite sum_storage_bytes_cons. unfold storage_region.
    now rewrite Hfast. }
  split; [|split].
  - intros e' w Hlist. rewrite Hsum.
    unfold storage_fallback, bind, client_list_datasets.
    now rewrite Hlist.
  - intros d after more w total s2 e' Hlist Hd Hmore. rewrite Hsum.
    unfold storage_fallback, bind at 1, client_list_datasets.
    rewrite Hlist. cbn [for_listing]. unfold bind. rewrite Hd, Hmore.
    reflexivity.
  - intros e' st2 Hf. rewrite Hsum, Hf. split; [reflexivity|]. split.
    + revert Hf. unfold storage_fallback, bind, client_list_datasets.
      destruct (list_datasets client _ (world st1)) as [l w].
      apply for_listing_storage_dataset_raise.
    + exact (storage_fallback_calls _ _ _ _ _ _ _ Hf).
Qed.

(** X13: an answer without any row is an error for both probes, and they
    part ways on it: [_sum_query_bytes_billed] raises the [IndexError] of
    [list(job)[0]] and stops, while [_sum_storage_bytes] takes it as a
    failure of the project-wide query and goes on with the fallback of the
    region. *)
Theorem empty_result_set
        (region : string) (rest : list string) (project_id : string)
        (total : Z) (st : State W Job) (job : Job) (w w' : W) :
  (forall start end_,
      month_bounds_of (clock (world st)) = Ok (start, end_) ->
      query client
        (mkCall (jobs_sql region)
           (Some (mkConfig
                    [mkParam "start" "TIMESTAMP" (PTimestamp start);
                     mkParam "end" "TIMESTAMP" (PTimestamp end_)]
                    None None))
           (Some (_region_to_location region))) (world st) = (Ok job, w) ->
      rows_of client job w = (Ok [], w') ->
      exists st',
        _sum_query_bytes_billed clock client (region :: rest) st
        = (Raise (IndexError "list index out of range"), st')
        /\ world st' = w')
  /\ (query client
        (mkCall (project_storage_sql region)
           (Some (mkConfig
                    [mkParam "project" "STRING" (PString project_id)]
                    None None))
           (Some (_region_to_location region))) (world st) = (Ok job, w) ->
      rows_of client job w = (Ok [], w') ->
      exists st',
        storage_region client project_id region total st
        = storage_fallback client project_id (_region_to_location region)
            total st'
        /\ world st' = w').
Proof.
  split.
  - intros start end_ Hb Hq Hr.
    unfold _sum_query_bytes_billed, bind at 1, _month_bounds_utc.
    rewrite Hb. cbn [for_each].
    unfold client_query, first_row_int, list_job, call, lift.
    unfold bind.
    cbn beta. rewrite Hq. cbn beta iota. cbn [world]. rewrite Hr.
    cbn [getitem_0]. eexists. split; reflexivity.
  - intros Hq Hr. unfold storage_region, storage_fast_path.
    unfold client_query, first_row_int, list_job, call, lift.
    unfold bind.
    cbn beta. rewrite Hq. cbn beta iota. cbn [world]. rewrite Hr.
    cbn [getitem_0]. eexists. split; reflexivity.
Qed.

End ProbeProperties.
(** ** The check and the guarded query *)

Section CheckProperties.

Context {W Job DataFrame : Type}.
Variable clock : W -> datetime.
Variable client : Client W Job DataFrame.

(** A snapshot comes only from two probes and an estimate that returned,
    with figures that pass both comparisons. *)
Lemma check_free_tier_allowance_ok_inv
      (project_id : option string) (regions : list string)
      (sql loc : option string) (ql sl : Z)
      (st st' : State W Job) (stats : list (string * Z)) :
  check_free_tier_allowance clock client project_id regions sql loc ql sl st
  = (Ok stats, st') ->
  exists (used_query used_storage planned : Z) (st1 st2 : State W Job),
    _sum_query_bytes_billed clock client regions st = (Ok used_query, st1)
    /\ _sum_storage_bytes client regions
         (Some (resolve_project client project_id)) st1
       = (Ok used_storage, st2)
    /\ planned_query_bytes client sql loc st2 = (Ok planned, st')
    /\ used_query + planned <= ql
    /\ used_storage <= sl
    /\ stats = [("used_query_bytes", used_query);
                ("planned_query_bytes", planned);
                ("query_limit_bytes", ql);
                ("used_storage_bytes", used_storage);
                ("storage_limit_bytes", sl)].
Proof.
  unfold check_free_tier_allowance, bind.
  destruct (_sum_query_bytes_billed clock client regions st)
    as [[uq|e] st1] eqn:Hq; [|discriminate].
  destruct (_sum_storage_bytes client regions _ st1)
    as [[us|e] st2] eqn:Hs; [|discriminate].
  destruct (planned_query_bytes client sql loc st2)
    as [[pl|e] st3] eqn:Hp; [|discriminate].
  destruct (Z.gtb_spec (uq + pl) ql); [discriminate|].
  destruct (Z.gtb_spec us sl); [discriminate|].
  intros [= <- <-]. exists uq, us, pl, st1, st2.
  repeat (split; [solve [reflexivity | assumption]|]). reflexivity.
Qed.

(** X8: a snapshot is never returned on figures that break a ceiling:
    whenever [check_free_tier_allowance] returns, the snapshot holds what
    the two probes and the estimate returned in this very call, and these
    satisfy used_query + planned <= query_limit_bytes and
    used_storage <= storage_limit_bytes. *)
Theorem check_free_tier_allowance_snapshot_sound
        (project_id : option string) (regions : list string)
        (sql loc : option string) (ql sl : Z)
        (st st' : State W Job) (stats : list (string * Z)) :
  check_free_tier_allowance clock client project_id regions sql loc ql sl st
  = (Ok stats, st') ->
  exists (used_query used_storage planned : Z) (st1 st2 : State W Job),
    _sum_query_bytes_billed clock client regions st = (Ok used_query, st1)
    /\ _sum_storage_bytes client regions
         (Some (resolve_project client project_id)) st1
       = (Ok used_storage, st2)
    /\ planned_query_bytes client sql loc st2 = (Ok planned, st')
    /\ getitem stats "used_query_bytes" = Ok used_query
    /\ getitem stats "planned_query_bytes" = Ok planned
    /\ getitem stats "used_storage_bytes" = Ok used_storage
    /\ getitem stats "query_limit_bytes" = Ok ql
    /\ getitem stats "storage_limit_bytes" = Ok sl
    /\ used_query + planned <= ql
    /\ used_storage <= sl.
Proof.
  intros H.
  destruct (check_free_tier_allowance_ok_inv _ _ _ _ _ _ _ _ _ H)
    as (uq & us & pl & st1 & st2 & Hq & Hs & Hp & Hql & Hsl & ->).
  exists uq, us, pl, st1, st2. repeat split; assumption.
Qed.

(** X9: raising a ceiling never turns a pass into a refusal, and the
    ceilings have no part in what the check does to the client: a check
    that returns under (ql, sl) returns under any ql' >= ql and sl' >= sl,
    in the same final state and with the same usage figures. *)
Theorem check_free_tier_allowance_monotone
        (project_id : option string) (regions : list string)
        (sql loc : option string) (ql sl ql' sl' : Z)
        (st st' : State W Job) (stats : list (string * Z)) :
  check_free_tier_allowance clock client project_id regions sql loc ql sl st
  = (Ok stats, st') ->
  ql <= ql' -> sl <= sl' ->
  exists stats' : list (string * Z),
    check_free_tier_allowance clock client project_id regions sql loc
      ql' sl' st = (Ok stats', st')
    /\ getitem stats' "used_query_bytes" = getitem stats "used_query_bytes"
    /\ getitem stats' "planned_query_bytes"
       = getitem stats "planned_query_bytes"
    /\ getitem stats' "used_storage_bytes"
       = getitem stats "used_storage_bytes"
    /\ getitem stats' "query_limit_bytes" = Ok ql'
    /\ getitem stats' "storage_limit_bytes" = Ok sl'.
Proof.
  intros H Hql' Hsl'.
  destruct (check_free_tier_allowance_ok_inv _ _ _ _ _ _ _ _ _ H)
    as (uq & us & pl & st1 & st2 & Hq & Hs & Hp & Hql & Hsl & ->).
  rewrite (check_free_tier_allowance_run clock client _ _ _ _ ql' sl'
             _ _ _ _ _ _ _ Hq Hs Hp).
  destruct (Z.gtb_spec (uq + pl) ql'); [lia|].
  destruct (Z.gtb_spec us sl'); [lia|].
  eexists. repeat split.
Qed.

(** X10: with a pending query that is not empty, a check that returns
    has made exactly one dry run, as its last call, of that query at the
    given location with the cache switched off; all the calls before it
    are not dry runs. *)
Theorem check_free_tier_allowance_dry_run_last
        (project_id : option string) (regions : list string)
        (sql : string) (loc : option string) (ql sl : Z)
        (st st' : State W Job) (stats : list (string * Z)) :
  sql <> EmptyString ->
  check_free_tier_allowance clock client project_id regions (Some sql) loc
    ql sl st = (Ok stats, st') ->
  exists evs : list (Event Job),
    calls st'
    = (calls st ++ evs
         ++ [EvQuery (mkCall sql
                        (Some (mkConfig [] (Some true) (Some false)))
                        loc)])%list
    /\ forallb not_dry_run_event evs = true.
Proof.
  intros Hsql H.
  destruct (check_free_tier_allowance_ok_inv _ _ _ _ _ _ _ _ _ H)
    as (uq & us & pl & st1 & st2 & Hq & Hs & Hp & _).
  destruct (logs_only_weaken _ _ _ (@metadata_event_not_dry_run Job)
              (sum_query_bytes_billed_logs clock client regions) _ _ _ Hq)
    as (evs1 & E1 & F1).
  destruct (sum_storage_bytes_logs_not_dry_run client _ _ _ _ _ Hs)
    as (evs2 & E2 & F2).
  unfold planned_query_bytes in Hp. cbn [falsy or_empty] in Hp.
  destruct (String.eqb_spec sql EmptyString) as [|_]; [contradiction|].
  unfold estimate_query_bytes, bind, client_query, call, lift in Hp.
  destruct (query client _ (world st2)) as [[job|e] w]; [|discriminate].
  injection Hp as _ <-. cbn [calls].
  exists (evs1 ++ evs2)%list. split.
  - rewrite E2, E1, <- !app_assoc. reflexivity.
  - now rewrite forallb_app, F1, F2.
Qed.

(** The usage line of a snapshot: the four divisions in turn. *)
Lemma usage_line_snapshot (used_query planned ql used_storage sl : Z) :
  usage_line [("used_query_bytes", used_query);
              ("planned_query_bytes", planned);
              ("query_limit_bytes", ql);
              ("used_storage_bytes", used_storage);
              ("storage_limit_bytes", sl)]
  = match truediv used_storage (1024 ^ 3) with
    | Raise e => Raise e
    | Ok storage_used_gb =>
    match truediv sl (1024 ^ 3) with
    | Raise e => Raise e
    | Ok storage_limit_gb =>
    match truediv used_query (1024 ^ 4) with
    | Raise e => Raise e
    | Ok query_used_tb =>
    match truediv ql (1024 ^ 4) with
    | Raise e => Raise e
    | Ok query_limit_tb =>
        Ok (OutUsage (format_f 2 storage_used_gb)
                     (format_f 0 storage_limit_gb)
                     (format_f 3 query_used_tb)
                     (format_f 0 query_limit_tb))
    end end end end.
Proof. reflexivity. Qed.

Lemma usage_line_raise (stats : list (string * Z))
      (used_query planned ql used_storage sl : Z) (e : Exc) :
  stats = [("used_query_bytes", used_query);
           ("planned_query_bytes", planned);
           ("query_limit_bytes", ql);
           ("used_storage_bytes", used_storage);
           ("storage_limit_bytes", sl)] ->
  usage_line stats = Raise e ->
  e = OverflowError "integer division result too large for a float".
Proof.
  intros ->. rewrite usage_line_snapshot.
  destruct (truediv used_storage (1024 ^ 3)) eqn:E1;
    [|intros [= <-]; eapply truediv_raise; [|exact E1]; discriminate].
  destruct (truediv sl (1024 ^ 3)) eqn:E2;
    [|intros [= <-]; eapply truediv_raise; [|exact E2]; discriminate].
  destruct (truediv used_query (1024 ^ 4)) eqn:E3;
    [|intros [= <-]; eapply truediv_raise; [|exact E3]; discriminate].
  destruct (truediv ql (1024 ^ 4)) eqn:E4;
    [|intros [= <-]; eapply truediv_raise; [|exact E4]; discriminate].
  discriminate.
Qed.

(** The [try] statement of [safe_query] when the check returns: the
    usage line is printed and control goes on, unless a figure of the
    line is beyond the range of floats. *)
Lemma safe_query_check_ok
      (sql : string) (loc : option string) (regions : list string)
      (project_id : option string) (ql sl : Z) (fail_soft : bool)
      (st st1 : State W Job) (stats : list (string * Z)) :
  check_free_tier_allowance clock client project_id regions (Some sql) loc
    ql sl st = (Ok stats, st1) ->
  safe_query_check clock client sql loc regions project_id ql sl
    fail_soft st
  = match usage_line stats with
    | Ok line =>
        (Ok None,
         mkState (world st1) (calls st1) (stdout st1 ++ [line]))
    | Raise e =>
        (Raise (OverflowError
                  "integer division result too large for a float"), st1)
    end.
Proof.
  intros H.
  destruct (check_free_tier_allowance_ok_inv _ _ _ _ _ _ _ _ _ H)
    as (uq & us & pl & s1 & s2 & _ & _ & _ & _ & _ & Hstats).
  unfold safe_query_check, try_except, bind at 1. rewrite H.
  unfold bind at 1, lift.
  destruct (usage_line stats) as [line|e] eqn:El; [reflexivity|].
  now rewrite (usage_line_raise _ _ _ _ _ _ _ Hstats El).
Qed.

(** X11: once the check has returned, [safe_query] works out the four
    figures of the usage line.  When they are within the range of floats
    it prints the line, rendered from the figures of the snapshot, and
    then sends the query itself, with the caller's job configuration and
    location; what that call raises is raised by [safe_query], under
    fail_soft too and whatever its class; with to_dataframe off the job
    is returned and no result is fetched; with it on the result is
    fetched once, with the timeout, and its failure is raised as well.
    When a figure is beyond the range of floats, [safe_query] raises the
    [OverflowError] of the division, under fail_soft too, prints nothing
    and does not send the query. *)
Theorem safe_query_allowed
        (sql : string) (loc : option string) (regions : list string)
        (project_id : option string) (ql sl : Z)
        (job_config : option QueryJobConfig) (timeout : option Q)
        (st st1 : State W Job) (stats : list (string * Z)) :
  check_free_tier_allowance clock client project_id regions (Some sql) loc
    ql sl st = (Ok stats, st1) ->
  exists used_query used_storage : Z,
    getitem stats "used_query_bytes" = Ok used_query
    /\ getitem stats "used_storage_bytes" = Ok used_storage
    /\ (forall storage_used_gb storage_limit_gb query_used_tb
               query_limit_tb : Q,
           truediv used_storage (1024 ^ 3) = Ok storage_used_gb ->
           truediv sl (1024 ^ 3) = Ok storage_limit_gb ->
           truediv used_query (1024 ^ 4) = Ok query_used_tb ->
           truediv ql (1024 ^ 4) = Ok query_limit_tb ->
           forall (fail_soft : bool) (w : W),
             let line := OutUsage (format_f 2 storage_used_gb)
                                  (format_f 0 storage_limit_gb)
                                  (format_f 3 query_used_tb)
                                  (format_f 0 query_limit_tb) in
             let sent := EvQuery (mkCall sql job_config loc) in
             (forall e,
                 query client (mkCall sql job_config loc) (world st1)
                 = (Raise e, w) ->
                 forall to_dataframe,
                   safe_query clock client sql loc regions project_id
                     ql sl to_dataframe job_config timeout fail_soft st
                   = (Raise e,
                      mkState w (calls st1 ++ [sent])
                              (stdout st1 ++ [line])))
             /\ (forall job,
                    query client (mkCall sql job_config loc) (world st1)
                    = (Ok job, w) ->
                    safe_query clock client sql loc regions project_id
                      ql sl false job_config timeout fail_soft st
                    = (Ok (RJob job),
                       mkState w (calls st1 ++ [sent])
                               (stdout st1 ++ [line]))
                    /\ forall r w',
                        result_to_dataframe client job timeout w
                        = (r, w') ->
                        safe_query clock client sql loc regions
                          project_id ql sl true job_config timeout
                          fail_soft st
                        = (match r with
                           | Ok df => Ok (RDataFrame df)
                           | Raise e => Raise e
                           end,
                           mkState w'
                             ((calls st1 ++ [sent])
                                ++ [EvResult job timeout])
                             (stdout st1 ++ [line]))))
    /\ (fits_float used_storage (1024 ^ 3)
        && fits_float sl (1024 ^ 3)
        && fits_float used_query (1024 ^ 4)
        && fits_float ql (1024 ^ 4) = false ->
        forall fail_soft to_dataframe : bool,
          safe_query clock client sql loc regions project_id ql sl
            to_dataframe job_config timeout fail_soft st
          = (Raise (OverflowError
                      "integer division result too large for a float"),
             st1)).
Proof.
  intros H.
  destruct (check_free_tier_allowance_ok_inv _ _ _ _ _ _ _ _ _ H)
    as (uq & us & pl & s1 & s2 & _ & _ & _ & _ & _ & Hstats).
  exists uq, us. subst stats.
  split; [reflexivity|]. split; [reflexivity|]. split.
  - intros a b c d Ea Eb Ec Ed fail_soft w line sent.
    pose proof (safe_query_check_ok sql loc regions project_id ql sl
                  fail_soft _ _ _ H) as Hcheck.
    rewrite usage_line_snapshot, Ea, Eb, Ec, Ed in Hcheck.
    fold line in Hcheck.
    split.
    + intros e Hq to_dataframe. unfold safe_query, bind at 1.
      rewrite Hcheck. unfold bind, client_query, call. cbn [world].
      now rewrite Hq.
    + intros job Hq. split.
      * unfold safe_query, bind at 1. rewrite Hcheck.
        unfold bind, client_query, call. cbn [world]. now rewrite Hq.
      * intros r w' Hr. unfold safe_query, bind at 1. rewrite Hcheck.
        unfold bind at 1. unfold client_query, call. cbn [world].
        rewrite Hq. unfold bind, job_result_to_dataframe, call.
        cbn [world]. rewrite Hr. now destruct r.
  - intros Hfits fail_soft to_dataframe.
    pose proof (safe_query_check_ok sql loc regions project_id ql sl
                  fail_soft _ _ _ H) as Hcheck.
    rewrite usage_line_snapshot in Hcheck. unfold fits_float in Hfits.
    unfold safe_query, bind at 1.
    destruct (truediv us (1024 ^ 3));
      [|rewrite Hcheck; reflexivity].
    destruct (truediv sl (1024 ^ 3));
      [|rewrite Hcheck; reflexivity].
    destruct (truediv uq (1024 ^ 4));
      [|rewrite Hcheck; reflexivity].
    destruct (truediv ql (1024 ^ 4));
      [discriminate Hfits | rewrite Hcheck; reflexivity].
Qed.

(** X12: an empty query text is not estimated, yet it is sent: the check
    of [safe_query] then makes no dry run and counts 0 bytes as planned,
    and once it has returned and the usage line could be built (its four
    figures are within the range of floats) the line is printed and the
    empty text goes to the warehouse as the query itself. *)
Theorem safe_query_empty_sql
        (loc : option string) (regions : list string)
        (project_id : option string) (ql sl : Z)
        (job_config : option QueryJobConfig) (timeout : option Q)
        (fail_soft : bool)
        (st st1 : State W Job) (stats : list (string * Z))
        (line : Output) (job : Job) (w : W) :
  check_free_tier_allowance clock client project_id regions
    (Some EmptyString) loc ql sl st = (Ok stats, st1) ->
  usage_line stats = Ok line ->
  query client (mkCall EmptyString job_config loc) (world st1)
  = (Ok job, w) ->
  exists (evs : list (Event Job)) (st' : State W Job),
    safe_query clock client EmptyString loc regions project_id ql sl
      false job_config timeout fail_soft st = (Ok (RJob job), st')
    /\ calls st'
       = (calls st ++ evs
            ++ [EvQuery (mkCall EmptyString job_config loc)])%list
    /\ forallb not_dry_run_event evs = true
    /\ getitem stats "planned_query_bytes" = Ok 0
    /\ stdout st' = (stdout st1 ++ [line])%list.
Proof.
  intros H Hline Hq.
  destruct (check_free_tier_allowance_logs_not_dry_run clock client
              project_id regions (Some EmptyString) loc ql sl eq_refl
              _ _ _ H) as (evs & E & F).
  pose proof (safe_query_check_ok EmptyString loc regions project_id ql sl
                fail_soft _ _ _ H) as Hcheck.
  rewrite Hline in Hcheck.
  exists evs. eexists. split; [|split; [|split; [|split]]].
  - unfold safe_query, bind at 1. rewrite Hcheck.
    unfold bind, client_query, call. cbn [world]. rewrite Hq.
    reflexivity.
  - cbn [calls]. rewrite E, <- app_assoc. reflexivity.
  - exact F.
  - exact (check_free_tier_allowance_planned clock client project_id
             regions (Some EmptyString) loc ql sl st st1 stats eq_refl H).
  - reflexivity.
Qed.

End CheckProperties.
(** ** The further properties on the scripted client *)


(** The listing of the datasets fails after its first item: the probe
    raises after five calls, three of them for that dataset. *)
Lemma sum_storage_bytes_listing_failure_witness :
  exists st',
    _sum_storage_bytes flaky_client ["region-eu"; "region-us"] None
      (Scripted.initial Scripted.no_project_view)
    = (Raise Scripted.Forbidden, st')
    /\ List.length (calls st') = 5%nat.
Proof.
  pose (st := Scripted.initial Scripted.no_project_view).
  pose (st1 := Scripted.after
                 (storage_fast_path flaky_client "demo" "region-eu" "EU")
                 st).
  pose (listed := mkState Scripted.no_project_view
                    (calls st1 ++ [EvListDatasets "demo"])%list
                    (stdout st1)).
  pose (sales := mkItem (mkRef "demo" "sales")).
  pose (s2 := Scripted.after
                (storage_dataset flaky_client "demo" "EU" sales 0) listed).
  eexists. split.
  - apply (proj1 (proj2 (sum_storage_bytes_listing_failure flaky_client
                           None "region-eu" ["region-us"] st st1
                           Scripted.Forbidden ltac:(run)))
             sales (fun w => w) (fun _ => LFail Scripted.Forbidden)
             Scripted.no_project_view 100 s2 Scripted.Forbidden);
      run.
  - reflexivity.
Defined.

Lemma check_free_tier_allowance_snapshot_sound_witness :
  exists used_query used_storage planned : Z,
    used_query + planned <= QUERY_LIMIT_BYTES
    /\ used_storage <= STORAGE_LIMIT_BYTES
    /\ used_storage = 5 * Scripted.GiB.
Proof.
  destruct (check_free_tier_allowance_snapshot_sound Scripted.clock
              Scripted.client None ["region-eu"] (Some "SELECT 1") None
              QUERY_LIMIT_BYTES STORAGE_LIMIT_BYTES
              (Scripted.initial Scripted.quiet)
              (Scripted.after
                 (check_free_tier_allowance Scripted.clock Scripted.client
                    None ["region-eu"] (Some "SELECT 1") None
                    QUERY_LIMIT_BYTES STORAGE_LIMIT_BYTES)
                 (Scripted.initial Scripted.quiet))
              [("used_query_bytes", 0);
               ("planned_query_bytes", 1000);
               ("query_limit_bytes", QUERY_LIMIT_BYTES);
               ("used_storage_bytes", 5 * Scripted.GiB);
               ("storage_limit_bytes", STORAGE_LIMIT_BYTES)]
              ltac:(run))
    as (uq & us & pl & st1 & st2 & _ & _ & _ & _ & _ & Hus & _ & _
        & Hql & Hsl).
  exists uq, us, pl. split; [exact Hql|]. split; [exact Hsl|].
  now injection Hus.
Defined.

Lemma check_free_tier_allowance_monotone_witness :
  exists stats' st',
    check_free_tier_allowance Scripted.clock Scripted.client None
      ["region-eu"] (Some "SELECT 1") None
      (2 * QUERY_LIMIT_BYTES) (STORAGE_LIMIT_BYTES + 1)
      (Scripted.initial Scripted.quiet) = (Ok stats', st')
    /\ getitem stats' "query_limit_bytes" = Ok (2 * QUERY_LIMIT_BYTES).
Proof.
  destruct (check_free_tier_allowance_monotone Scripted.clock
              Scripted.client None ["region-eu"] (Some "SELECT 1") None
              QUERY_LIMIT_BYTES STORAGE_LIMIT_BYTES
              (2 * QUERY_LIMIT_BYTES) (STORAGE_LIMIT_BYTES + 1)
              (Scripted.initial Scripted.quiet)
              (Scripted.after
                 (check_free_tier_allowance Scripted.clock Scripted.client
                    None ["region-eu"] (Some "SELECT 1") None
                    QUERY_LIMIT_BYTES STORAGE_LIMIT_BYTES)
                 (Scripted.initial Scripted.quiet))
              [("used_query_bytes", 0);
               ("planned_query_bytes", 1000);
               ("query_limit_bytes", QUERY_LIMIT_BYTES);
               ("used_storage_bytes", 5 * Scripted.GiB);
               ("storage_limit_bytes", STORAGE_LIMIT_BYTES)]
              ltac:(run) ltac:(discriminate) ltac:(discriminate))
    as (stats' & E & _ & _ & _ & Hql & _).
  eexists _, _. split; [exact E | exact Hql].
Defined.

Lemma check_free_tier_allowance_dry_run_last_witness :
  exists evs : list (Event Scripted.SJob),
    calls (Scripted.after
             (check_free_tier_allowance Scripted.clock Scripted.client
                None ["region-eu"] (Some "SELECT 1") (Some "EU")
                QUERY_LIMIT_BYTES STORAGE_LIMIT_BYTES)
             (Scripted.initial Scripted.quiet))
    = (calls (Scripted.initial Scripted.quiet) ++ evs
         ++ [EvQuery (mkCall "SELECT 1"
                        (Some (mkConfig [] (Some true) (Some false)))
                        (Some "EU"))])%list
    /\ forallb not_dry_run_event evs = true.
Proof.
  apply (check_free_tier_allowance_dry_run_last Scripted.clock
           Scripted.client None ["region-eu"] "SELECT 1" (Some "EU")
           QUERY_LIMIT_BYTES STORAGE_LIMIT_BYTES
           (Scripted.initial Scripted.quiet)
           (Scripted.after
              (check_free_tier_allowance Scripted.clock Scripted.client
                 None ["region-eu"] (Some "SELECT 1") (Some "EU")
                 QUERY_LIMIT_BYTES STORAGE_LIMIT_BYTES)
              (Scripted.initial Scripted.quiet))
           [("used_query_bytes", 0);
            ("planned_query_bytes", 1000);
            ("query_limit_bytes", QUERY_LIMIT_BYTES);
            ("used_storage_bytes", 5 * Scripted.GiB);
            ("storage_limit_bytes", STORAGE_LIMIT_BYTES)]).
  - discriminate.
  - run.
Defined.

Lemma safe_query_allowed_witness :
  exists st',
    safe_query Scripted.clock Scripted.client "SELECT 1" None ["region-eu"]
      None QUERY_LIMIT_BYTES STORAGE_LIMIT_BYTES false None None true
      (Scripted.initial Scripted.quiet)
    = (Ok (RJob (Scripted.mkSJob (Ok [[("n", Some 1)]]) None)), st')
    /\ stdout st'
       = [OutUsage (mkNumeral false 500) (mkNumeral false 10)
                   (mkNumeral false 0) (mkNumeral false 1)].
Proof.
  pose (storage_used_gb := ltac:(quotient (5 * Scripted.GiB) (1024 ^ 3))).
  pose (storage_limit_gb := ltac:(quotient STORAGE_LIMIT_BYTES (1024 ^ 3))).
  pose (query_used_tb := ltac:(quotient 0 (1024 ^ 4))).
  pose (query_limit_tb := ltac:(quotient QUERY_LIMIT_BYTES (1024 ^ 4))).
  destruct (safe_query_allowed Scripted.clock Scripted.client
              "SELECT 1" None ["region-eu"] None
              QUERY_LIMIT_BYTES STORAGE_LIMIT_BYTES None None
              (Scripted.initial Scripted.quiet)
              (Scripted.after
                 (check_free_tier_allowance Scripted.clock Scripted.client
                    None ["region-eu"] (Some "SELECT 1") None
                    QUERY_LIMIT_BYTES STORAGE_LIMIT_BYTES)
                 (Scripted.initial Scripted.quiet))
              [("used_query_bytes", 0);
               ("planned_query_bytes", 1000);
               ("query_limit_bytes", QUERY_LIMIT_BYTES);
               ("used_storage_bytes", 5 * Scripted.GiB);
               ("storage_limit_bytes", STORAGE_LIMIT_BYTES)]
              ltac:(run))
    as (uq & us & Huq & Hus & Hall & _).
  injection Huq as <-. injection Hus as <-.
  destruct (Hall storage_used_gb storage_limit_gb query_used_tb
              query_limit_tb ltac:(run) ltac:(run) ltac:(run) ltac:(run)
              true Scripted.quiet) as [_ Hok].
  destruct (Hok (Scripted.mkSJob (Ok [[("n", Some 1)]]) None) ltac:(run))
    as [Hjob _].
  eexists. split; [exact Hjob | reflexivity].
Defined.

Lemma safe_query_empty_sql_witness :
  exists (evs : list (Event Scripted.SJob)) st',
    safe_query Scripted.clock Scripted.client EmptyString None
      ["region-eu"] None QUERY_LIMIT_BYTES STORAGE_LIMIT_BYTES
      false None None false (Scripted.initial Scripted.quiet)
    = (Ok (RJob (Scripted.mkSJob (Ok [[("n", Some 1)]]) None)), st')
    /\ calls st'
       = (calls (Scripted.initial Scripted.quiet) ++ evs
            ++ [EvQuery (mkCall EmptyString None None)])%list
    /\ forallb not_dry_run_event evs = true.
Proof.
  destruct (safe_query_empty_sql Scripted.clock Scripted.client None
              ["region-eu"] None QUERY_LIMIT_BYTES STORAGE_LIMIT_BYTES
              None None false
              (Scripted.initial Scripted.quiet)
              (Scripted.after
                 (check_free_tier_allowance Scripted.clock Scripted.client
                    None ["region-eu"] (Some EmptyString) None
                    QUERY_LIMIT_BYTES STORAGE_LIMIT_BYTES)
                 (Scripted.initial Scripted.quiet))
              [("used_query_bytes", 0);
               ("planned_query_bytes", 0);
               ("query_limit_bytes", QUERY_LIMIT_BYTES);
               ("used_storage_bytes", 5 * Scripted.GiB);
               ("storage_limit_bytes", STORAGE_LIMIT_BYTES)]
              (OutUsage (mkNumeral false 500) (mkNumeral false 10)
                        (mkNumeral false 0) (mkNumeral false 1))
              (Scripted.mkSJob (Ok [[("n", Some 1)]]) None)
              Scripted.quiet
              ltac:(run) ltac:(run) ltac:(run))
    as (evs & st' & E & Hc & F & _).
  exists evs, st'. split; [exact E|]. split; [exact Hc | exact F].
Defined.

Lemma empty_result_set_witness :
  exists st',
    _sum_query_bytes_billed Scripted.clock empty_client
      ["region-eu"; "region-us"] (Scripted.initial Scripted.quiet)
    = (Raise (IndexError "list index out of range"), st')
    /\ world st' = Scripted.quiet.
Proof.
  apply (proj1 (empty_result_set Scripted.clock empty_client
                  "region-eu" ["region-us"] "demo" 0
                  (Scripted.initial Scripted.quiet)
                  (Scripted.mkSJob (Ok []) None)
                  Scripted.quiet Scripted.quiet)
               (mkDatetime 2024 2 1 0 0 0 0) (mkDatetime 2024 3 1 0 0 0 0));
    run.
Defined.
